(** * solana-mission-control: the exporter's collection cycle

    A shallow embedding of [exporter/exporter.go]: the epoch-info cache
    ([getCachedEpochInfo]), the epoch-credit scan
    ([calcualteEpochVoteCredits]), the vote-account metrics
    ([mustEmitMetrics]), the status alert ([AlertValidatorStatus]), the
    collection pass ([Collect]) and [blockTimeDiff].

    Go values are modelled as follows.
    - [int64] is [Z]; the only arithmetic the exporter does on such values
      that can leave the range is inside package [time], where the
      saturation is written out.
    - [float64] is IEEE binary64 as specified by [SpecFloat] with
      [prec = 53] and [emax = 1024].
    - A pointer that may be [nil] is an [option]; dereferencing [None]
      is the outcome [Panic].
    - The RPC client, the alerter, the dedup query and the wall clock are
      an environment [Env] of replies; everything the collector does to
      the outside is appended to a trace of [Event]s. *)

From Stdlib Require Import ZArith List String Ascii Bool Lia.
From Stdlib Require Import Floats.SpecFloat.
From Stdlib Require Import DecimalString DecimalPos.
Import ListNotations.

Local Open Scope string_scope.
Local Open Scope Z_scope.

(** ** float64 *)

Module F64.

Definition prec : Z := 53.
Definition emax : Z := 1024.

Definition float64 := spec_float.

Definition zero : float64 := S754_zero false.

(** [float64(n)] for an integer [n]: round to nearest, ties to even. *)
Definition of_int (n : Z) : float64 := binary_normalize prec emax n 0 false.

Definition one : float64 := Eval cbv in of_int 1.

Definition add : float64 -> float64 -> float64 := SFadd prec emax.
Definition sub : float64 -> float64 -> float64 := SFsub prec emax.
Definition div : float64 -> float64 -> float64 := SFdiv prec emax.
Definition opp : float64 -> float64 := SFopp.
Definition ltb : float64 -> float64 -> bool := SFltb.

(** Go's [x != 0] on floats: true for NaN, false for both zeros. *)
Definition nonzero (x : float64) : bool := negb (SFeqb x zero).

Definition is_nan (x : float64) : bool :=
  match x with S754_nan => true | _ => false end.

(** A value a conversion from an integer can produce: a zero or a finite
    number. *)
Definition is_finite (x : float64) : bool :=
  match x with
  | S754_zero _ | S754_finite _ _ _ => true
  | _ => false
  end.

End F64.

Abbreviation float64 := F64.float64.

(** ** Integers of fixed width *)

Definition int64_min : Z := - 2 ^ 63.
Definition int64_max : Z := 2 ^ 63 - 1.
Definition in_int64 (z : Z) : Prop := int64_min <= z <= int64_max.

(** [strconv.FormatInt(z, 10)]. *)
Definition FormatInt (z : Z) : string := NilZero.string_of_int (Z.to_int z).

(** ** Data of package [types] and [config] *)

Definition Err := string.

Record EpochInfo := { Epoch : Z; AbsoluteSlot : Z }.

Record VoteAccount := {
  NodePubkey : string;
  VotePubkey : string;
  ActivatedStake : Z;
  LastVote : Z;
  RootSlot : Z;
  Commission : Z;
  EpochVoteAccount : bool;
  EpochCredits : list (list Z)
}.

Record GetVoteAccountsResponse := {
  Current : list VoteAccount;
  Delinquent : list VoteAccount
}.

Record Config := {
  PubKey : string;
  AlertTimings : list string
}.

(** ** The outside world *)

Inductive Desc :=
| totalValidatorsDesc | validatorActivatedStake | validatorLastVote
| validatorRootSlot | validatorDelinquent | solanaVersion | slotLeader
| currentSlot | commission | delinqentCommission | validatorVote
| statusAlertCount | txCount | netVoteHeight | valVoteHeight
| voteHeightDiff | valVotingStatus | voteCredits | networkVoteCredits.

Inductive Channel := Telegram | Email | Slack.

Inductive Rpc :=
| RpcEpochInfo | RpcVoteAccounts | RpcVersion | RpcSlotLeader
| RpcCurrentSlot | RpcTxCount.

Inductive Event :=
| EvMetric (d : Desc) (v : float64) (labels : list string)
| EvInvalid (d : Desc) (e : Err)
| EvQuery (r : Rpc)
| EvDedupQuery
| EvSend (c : Channel) (msg : string)
| EvLog (msg : string).

(** Replies of the collaborators.  A Go call returning [(T, error)] replies
    with a pair: the value and the error, [None] for [nil].  Collaborators
    that one cycle may call several times are indexed by the number of
    interactions that happened before the call ([tick]). *)
Record Env := {
  clock : nat -> Z;                               (* wall clock, ns since the Unix epoch *)
  GetEpochInfo : nat -> EpochInfo * option Err;
  AlertStatusCountFromPrometheus : nat -> string * option Err;
  SendAlert : Channel -> nat -> option Err;
  GetVoteAccounts : GetVoteAccountsResponse * option Err;
  GetVersion : string * option Err;
  GetSlotLeader : string * option Err;
  GetCurrentSlot : Z * option Err;
  GetTxCount : Z * option Err;
  NearestThousandFormat : float64 -> string
}.

(** The collector's mutable fields, the interaction counter and the trace. *)
Record World := {
  cachedEpochInfo : option EpochInfo;
  cachedEpochTime : Z;
  tick : nat;
  trace : list Event
}.

Definition initial : World :=
  {| cachedEpochInfo := None; cachedEpochTime := 0; tick := 0; trace := [] |}.

(** ** A state monad with panics *)

Inductive Outcome (A : Type) :=
| Done (a : A) (w : World)
| Panic (w : World).
Arguments Done {A} a w.
Arguments Panic {A} w.

Definition M (A : Type) := World -> Outcome A.

Definition ret {A} (a : A) : M A := fun w => Done a w.

Definition bind {A B} (m : M A) (k : A -> M B) : M B :=
  fun w => match m w with
           | Done a w' => k a w'
           | Panic w' => Panic w'
           end.

Definition panic {A} : M A := fun w => Panic w.

Notation "x <- m ;; k" := (bind m (fun x => k))
  (at level 61, m at next level, right associativity).
Notation "m ;; k" := (bind m (fun _ => k))
  (at level 61, right associativity).

Definition emit (e : Event) : M unit :=
  fun w => Done tt {| cachedEpochInfo := cachedEpochInfo w;
                      cachedEpochTime := cachedEpochTime w;
                      tick := tick w;
                      trace := trace w ++ [e] |}.

(** One interaction with an indexed collaborator. *)
Definition next : M nat :=
  fun w => Done (tick w) {| cachedEpochInfo := cachedEpochInfo w;
                           cachedEpochTime := cachedEpochTime w;
                           tick := S (tick w);
                           trace := trace w |}.

Definition setCache (v : EpochInfo) (t : Z) : M unit :=
  fun w => Done tt {| cachedEpochInfo := Some v;
                      cachedEpochTime := t;
                      tick := tick w;
                      trace := trace w |}.

Definition getCache : M (option EpochInfo * Z) :=
  fun w => Done (cachedEpochInfo w, cachedEpochTime w) w.

Definition ch_metric (d : Desc) (v : float64) (labels : list string) : M unit :=
  emit (EvMetric d v labels).

Definition when (b : bool) (m : M unit) : M unit := if b then m else ret tt.

(** ** Package [time] *)

Module time.

Definition Second : Z := 1000000000.
Definition minDuration : Z := - 2 ^ 63.
Definition maxDuration : Z := 2 ^ 63 - 1.

(** [t.Sub(u)] on instants in nanoseconds: the difference, or the extreme
    duration when the difference does not fit a [Duration]. *)
Definition Sub (t u : Z) : Z :=
  let d := t - u in
  if d <? minDuration then minDuration
  else if maxDuration <? d then maxDuration
  else d.

(** Seconds between January 1 of year 1 and the Unix epoch. *)
Definition unixToInternal : Z := 62135596800.

Definition wrap64 (z : Z) : Z := (z + 2 ^ 63) mod 2 ^ 64 - 2 ^ 63.

(** [time.Unix(sec, 0)] as an instant in nanoseconds since year 1.  A
    [Time] keeps the seconds since year 1 in an [int64], so seconds beyond
    that range wrap around. *)
Definition Unix (sec : Z) : Z := wrap64 (sec + unixToInternal) * Second.

(** [d.Seconds()]. *)
Definition Seconds (d : Z) : float64 :=
  let sec := Z.quot d Second in
  let nsec := Z.rem d Second in
  F64.add (F64.of_int sec) (F64.div (F64.of_int nsec) (F64.of_int Second)).

End time.

(** The layout [time.Kitchen], "3:04PM". *)
Module Kitchen.

Definition isDigit (c : ascii) : bool :=
  let n := Z.of_nat (nat_of_ascii c) in (48 <=? n) && (n <=? 57).

Definition digit (c : ascii) : Z := Z.of_nat (nat_of_ascii c) - 48.

(** [getnum(s, fixed)]: one or two leading digits, exactly two when
    [fixed]. *)
Definition getnum (s : list ascii) (fixed : bool) : option (Z * list ascii) :=
  match s with
  | c0 :: c1 :: rest =>
      if isDigit c0 then
        if isDigit c1 then Some (digit c0 * 10 + digit c1, rest)
        else if fixed then None else Some (digit c0, c1 :: rest)
      else None
  | [c0] =>
      if isDigit c0 then (if fixed then None else Some (digit c0, []))
      else None
  | [] => None
  end.

(** [time.Parse(time.Kitchen, value)]: the hour (0..23) and the minute,
    or [None] where [Parse] returns an error. *)
Definition Parse (value : string) : option (Z * Z) :=
  match getnum (list_ascii_of_string value) false with
  | None => None
  | Some (hour, v1) =>
      if 12 <? hour then None else
      match v1 with
      | ":"%char :: v2 =>
          match getnum v2 true with
          | None => None
          | Some (min, v3) =>
              if 60 <=? min then None else
              match v3 with
              | [p; "M"%char] =>
                  if Ascii.eqb p "P" then
                    Some (if hour <? 12 then hour + 12 else hour, min)
                  else if Ascii.eqb p "A" then
                    Some (if hour =? 12 then 0 else hour, min)
                  else None
              | _ => None
              end
          end
      | _ => None
      end
  end.

Definition two_digits (n : Z) : string :=
  if n <? 10 then "0" ++ FormatInt n else FormatInt n.

(** [t.Format(time.Kitchen)] of a time of day. *)
Definition Format (hm : Z * Z) : string :=
  let (h, m) := hm in
  let h12 := if h mod 12 =? 0 then 12 else h mod 12 in
  FormatInt h12 ++ ":" ++ two_digits m ++ (if h <? 12 then "AM" else "PM").

(** The time of day, in UTC, of an instant given in nanoseconds. *)
Definition of_instant (ns : Z) : Z * Z :=
  let minutes := (ns / 1000000000 / 60) mod 1440 in
  (minutes / 60, minutes mod 60).

(** [t, _ := time.Parse(time.Kitchen, value); t.Format(time.Kitchen)]:
    the zero [Time], midnight, stands in when parsing fails. *)
Definition normalize (value : string) : string :=
  Format (match Parse value with Some hm => hm | None => (0, 0) end).

End Kitchen.

(** ** [fmt.Sprintf("%.2f", x)] and [strconv.ParseFloat(s, 64)] *)

Module strconv.

Definition round_half_even (q r d : Z) : Z :=
  match 2 * r ?= d with
  | Lt => q
  | Gt => q + 1
  | Eq => if Z.even q then q else q + 1
  end.

(** The magnitude [m * 2^e] times 100, rounded to an integer. *)
Definition hundredths (m : positive) (e : Z) : Z :=
  if 0 <=? e then Zpos m * 2 ^ e * 100
  else let d := 2 ^ (- e) in
       round_half_even (Zpos m * 100 / d) ((Zpos m * 100) mod d) d.

Definition fixed2 (n : Z) : string :=
  FormatInt (n / 100) ++ "." ++ Kitchen.two_digits (n mod 100).

Definition Sprintf_2f (x : float64) : string :=
  match x with
  | S754_nan => "NaN"
  | S754_infinity s => if s then "-Inf" else "+Inf"
  | S754_zero s => (if s then "-" else "") ++ "0.00"
  | S754_finite s m e => (if s then "-" else "") ++ fixed2 (hundredths m e)
  end.

(** Decimal digits read as a number, most significant first. *)
Fixpoint digits (acc : Z) (s : list ascii) : option Z :=
  match s with
  | [] => Some acc
  | c :: rest =>
      if Kitchen.isDigit c then digits (acc * 10 + Kitchen.digit c) rest
      else None
  end.

Fixpoint split_dot (s : list ascii) : list ascii * option (list ascii) :=
  match s with
  | [] => ([], None)
  | c :: rest =>
      if Ascii.eqb c "." then ([], Some rest)
      else let (i, f) := split_dot rest in (c :: i, f)
  end.

(** The float nearest to [n / d], ties to even, with sign [s]. *)
Definition nearest (s : bool) (n d : Z) : float64 :=
  if n =? 0 then S754_zero s
  else
    let '(mz, ez, lz) := SFdiv_core_binary F64.prec F64.emax n 0 d 0 in
    binary_round_aux F64.prec F64.emax s mz ez lz.

Definition unsigned (s : bool) (body : list ascii) : option float64 :=
  match body with
  | [] => None
  | _ =>
      let (i, f) := split_dot body in
      let f := match f with Some f => f | None => [] end in
      match i ++ f with
      | [] => None
      | ds => match digits 0 ds with
              | Some n => Some (nearest s n (10 ^ Z.of_nat (List.length f)))
              | None => None
              end
      end
  end%list.

(** [strconv.ParseFloat(s, 64)] on the strings ["%.2f"] produces: an
    optional sign, decimal digits with an optional fraction, ["NaN"] and
    the infinities.  [None] is the error result. *)
Definition ParseFloat (s : string) : option float64 :=
  if String.eqb s "NaN" then Some S754_nan
  else if String.eqb s "+Inf" || String.eqb s "Inf" then Some (S754_infinity false)
  else if String.eqb s "-Inf" then Some (S754_infinity true)
  else match list_ascii_of_string s with
       | c :: rest =>
           if Ascii.eqb c "-" then unsigned true rest
           else if Ascii.eqb c "+" then unsigned false rest
           else unsigned false (c :: rest)
       | [] => None
       end.

End strconv.

(** ** blockTimeDiff *)

Definition blockTimeDiff (bt pvt : Z) : float64 * string :=
  let t1 := time.Unix bt in
  let t2 := time.Unix pvt in
  let sub := time.Sub t1 t2 in
  let diff := time.Seconds sub in
  let diff := if F64.ltb diff F64.zero then F64.opp diff else diff in
  let s := strconv.Sprintf_2f diff in
  let sec := match strconv.ParseFloat s with Some f => f | None => F64.zero end in
  (sec, s).

Section Exporter.

Variable env : Env.
Variable config : Config.

Definition timeNow : M Z := i <- next ;; ret (clock env i).

(** [time.Since(t)]. *)
Definition timeSince (t : Z) : M Z := now <- timeNow ;; ret (time.Sub now t).

Definition monitor_GetEpochInfo : M (EpochInfo * option Err) :=
  i <- next ;; emit (EvQuery RpcEpochInfo) ;; ret (GetEpochInfo env i).

(** *** getCachedEpochInfo *)

Definition ttl : Z := 30 * time.Second.

Definition fetchEpochInfo : M (option EpochInfo * option Err) :=
  r <- monitor_GetEpochInfo ;;
  match snd r with
  | Some err => ret (None, Some err)
  | None =>
      now <- timeNow ;;
      setCache (fst r) now ;;
      ret (Some (fst r), None)
  end.

Definition getCachedEpochInfo : M (option EpochInfo * option Err) :=
  c <- getCache ;;
  match fst c with
  | Some info =>
      since <- timeSince (snd c) ;;
      if since <? ttl then ret (Some info, None) else fetchEpochInfo
  | None => fetchEpochInfo
  end.

(** *** calcualteEpochVoteCredits *)

(** The loop over [credits]: the first inner slice with at least three
    elements whose first element is [epoch] gives the two credits. *)
Fixpoint scanCredits (epoch : Z) (credits : list (list Z)) : Z * Z :=
  match credits with
  | [] => (0, 0)
  | c :: rest =>
      match c with
      | c0 :: c1 :: c2 :: _ =>
          if c0 =? epoch then (c1, c2) else scanCredits epoch rest
      | _ => scanCredits epoch rest
      end
  end.

Definition calcualteEpochVoteCredits (credits : list (list Z))
  : M (float64 * float64) :=
  r <- getCachedEpochInfo ;;
  when (match snd r with Some _ => true | None => false end)
       (emit (EvLog "Error while getting epoch info")) ;;
  match fst r with
  | None => panic
  | Some epochInfo =>
      let cp := scanCredits (Epoch epochInfo) credits in
      ret (F64.of_int (fst cp), F64.of_int (snd cp))
  end.

(** *** AlertValidatorStatus *)

Definition querier_AlertStatusCountFromPrometheus : M (string * option Err) :=
  i <- next ;; emit EvDedupQuery ;; ret (AlertStatusCountFromPrometheus env i).

Definition alerter_Send (c : Channel) (msg : string) : M (option Err) :=
  i <- next ;; emit (EvSend c msg) ;; ret (SendAlert env c i).

Definition isErr (e : option Err) : bool :=
  match e with Some _ => true | None => false end.

Definition sendAll (msg : string) : M unit :=
  telegramErr <- alerter_Send Telegram msg ;;
  emailErr <- alerter_Send Email msg ;;
  slackErr <- alerter_Send Slack msg ;;
  when (isErr telegramErr)
       (emit (EvLog "Error while sending vallidator status alert to telegram")) ;;
  when (isErr emailErr)
       (emit (EvLog "Error while sending validator status alert to email")) ;;
  when (isErr slackErr)
       (emit (EvLog "Error while sending validator status alert to slack")).

(** The second loop of [AlertValidatorStatus].  The result is the value of
    the local [count] when the function is left. *)
Fixpoint alertLoop (msg currentTime : string) (alertsArray : list string)
    (count : float64) : M float64 :=
  match alertsArray with
  | [] => ret count
  | statusAlertTime :: rest =>
      if String.eqb currentTime statusAlertTime then
        r <- querier_AlertStatusCountFromPrometheus ;;
        if String.eqb (fst r) "false" then
          sendAll msg ;;
          ch_metric statusAlertCount count ["true"] ;;
          alertLoop msg currentTime rest (F64.add count F64.one)
        else
          ch_metric statusAlertCount count ["false"] ;;
          ret count
      else alertLoop msg currentTime rest count
  end.

Definition alertsArray : list string :=
  map Kitchen.normalize (AlertTimings config).

Definition AlertValidatorStatus (msg : string) : M unit :=
  now <- timeNow ;;
  let currentTime := Kitchen.Format (Kitchen.of_instant now) in
  emit (EvLog "Current time and alerts array") ;;
  alertLoop msg currentTime alertsArray F64.zero ;;
  ret tt.

(** *** mustEmitMetrics *)

Fixpoint forM {A} (l : list A) (f : A -> M unit) : M unit :=
  match l with
  | [] => ret tt
  | x :: rest => f x ;; forM rest f
  end.

Definition tracked (a : VoteAccount) : bool :=
  String.eqb (NodePubkey a) (PubKey config).

(** The loop that sets [netresult]: the last vote of the first tracked
    record of the current set. *)
Fixpoint netVote (current : list VoteAccount) : float64 :=
  match current with
  | [] => F64.zero
  | vote :: rest =>
      if tracked vote then F64.of_int (LastVote vote) else netVote rest
  end.

Definition pow10_9 : float64 := Eval cbv in F64.of_int 1000000000.

(** The running sums and counts of the network credits. *)
Record Credits := {
  runningCurrentCredits : float64;
  runningPreviousCredits : float64;
  currentCreditsCount : Z;
  previousCreditsCount : Z
}.

Definition noCredits : Credits :=
  {| runningCurrentCredits := F64.zero; runningPreviousCredits := F64.zero;
     currentCreditsCount := 0; previousCreditsCount := 0 |}.

Definition accumulate (acc : Credits) (cCredits pCredits : float64) : Credits :=
  if F64.nonzero cCredits && F64.nonzero pCredits then
    {| runningCurrentCredits := F64.add (runningCurrentCredits acc) cCredits;
       runningPreviousCredits := F64.add (runningPreviousCredits acc) pCredits;
       currentCreditsCount := currentCreditsCount acc + 1;
       previousCreditsCount := previousCreditsCount acc + 1 |}
  else acc.

(** What the loop over the current set emits for the tracked record. *)
Definition emitTracked (netresult : float64) (vote : VoteAccount)
    (cCredits pCredits : float64) : M unit :=
  let v := FormatInt (Commission vote) in
  let epochvote := if EpochVoteAccount vote then F64.one else F64.zero in
  ch_metric validatorVote epochvote ["current"] ;;
  ch_metric commission (F64.of_int (Commission vote)) [v] ;;
  ch_metric validatorDelinquent F64.zero [VotePubkey vote; NodePubkey vote] ;;
  let stake := F64.div (F64.of_int (ActivatedStake vote)) pow10_9 in
  ch_metric validatorActivatedStake stake [VotePubkey vote; NodePubkey vote] ;;
  (if negb (EpochVoteAccount vote) && (ActivatedStake vote <=? 0) then
     AlertValidatorStatus "Solana validator is NOT VOTING" ;;
     ch_metric valVotingStatus F64.zero ["Jailed"]
   else
     AlertValidatorStatus "Solana validator is VOTING" ;;
     ch_metric valVotingStatus F64.one ["Voting"]) ;;
  let valresult := F64.of_int (LastVote vote) in
  ch_metric valVoteHeight valresult ["validator"] ;;
  ch_metric netVoteHeight netresult ["network"] ;;
  let diff := F64.sub netresult valresult in
  ch_metric voteHeightDiff diff ["vote height difference"] ;;
  ch_metric voteCredits cCredits ["current"] ;;
  ch_metric voteCredits pCredits ["previous"].

Fixpoint currentLoop (netresult : float64) (current : list VoteAccount)
    (acc : Credits) : M Credits :=
  match current with
  | [] => ret acc
  | vote :: rest =>
      cp <- calcualteEpochVoteCredits (EpochCredits vote) ;;
      let acc' := accumulate acc (fst cp) (snd cp) in
      when (tracked vote) (emitTracked netresult vote (fst cp) (snd cp)) ;;
      currentLoop netresult rest acc'
  end.

Definition delinquentMsg : string := "Your solana validator is in DELINQUENT state".
Definition delinquentMsgEmail : string := "Your solana validator is in DELINQUNET state".

Definition emitDelinquent (vote : VoteAccount) : M unit :=
  let v := FormatInt (Commission vote) in
  ch_metric delinqentCommission (F64.of_int (Commission vote)) [v] ;;
  ch_metric validatorDelinquent F64.one [VotePubkey vote; NodePubkey vote] ;;
  telegramErr <- alerter_Send Telegram delinquentMsg ;;
  when (isErr telegramErr)
       (emit (EvLog "Error while sending vallidator status alert to telegram")) ;;
  emailErr <- alerter_Send Email delinquentMsgEmail ;;
  when (isErr emailErr)
       (emit (EvLog "Error while sending validator status alert to email")) ;;
  slackErr <- alerter_Send Slack delinquentMsg ;;
  when (isErr slackErr)
       (emit (EvLog "Error while sending validator status alert to slack")).

Definition mustEmitMetrics (response : GetVoteAccountsResponse) : M unit :=
  ch_metric totalValidatorsDesc
    (F64.of_int (Z.of_nat (List.length (Delinquent response)))) ["delinquent"] ;;
  ch_metric totalValidatorsDesc
    (F64.of_int (Z.of_nat (List.length (Current response)))) ["current"] ;;
  forM (Current response ++ Delinquent response)%list (fun account =>
    when (tracked account)
      (ch_metric validatorLastVote (F64.of_int (LastVote account))
         [VotePubkey account; NodePubkey account] ;;
       ch_metric validatorRootSlot (F64.of_int (RootSlot account))
         [VotePubkey account; NodePubkey account])) ;;
  r <- getCachedEpochInfo ;;
  when (isErr (snd r)) (emit (EvLog "Error while getting epoch info")) ;;
  let netresult := netVote (Current response) in
  acc <- currentLoop netresult (Current response) noCredits ;;
  let avgCurrentCredits :=
    F64.div (runningCurrentCredits acc) (F64.of_int (currentCreditsCount acc)) in
  let avgPreviousCredits :=
    F64.div (runningPreviousCredits acc) (F64.of_int (previousCreditsCount acc)) in
  ch_metric networkVoteCredits avgCurrentCredits ["current"] ;;
  ch_metric networkVoteCredits avgPreviousCredits ["previous"] ;;
  forM (Delinquent response) (fun vote => when (tracked vote) (emitDelinquent vote)).

(** *** Collect *)

Definition query {A} (r : Rpc) (reply : A) : M A := emit (EvQuery r) ;; ret reply.

(** Everything [Collect] does after the vote accounts. *)
Definition collectRest : M unit :=
  version <- query RpcVersion (GetVersion env) ;;
  when (negb (String.eqb (fst version) ""))
       (ch_metric solanaVersion F64.one [fst version]) ;;
  leader <- query RpcSlotLeader (GetSlotLeader env) ;;
  match snd leader with
  | Some err => emit (EvInvalid slotLeader err)
  | None => when (negb (String.eqb (fst leader) ""))
                 (ch_metric slotLeader F64.one [fst leader])
  end ;;
  slot <- query RpcCurrentSlot (GetCurrentSlot env) ;;
  match snd slot with
  | Some err => emit (EvLog "Error while getting current slot info")
  | None => ch_metric currentSlot (F64.of_int (fst slot)) [FormatInt (fst slot)]
  end ;;
  count <- query RpcTxCount (GetTxCount env) ;;
  let txcount := NearestThousandFormat env (F64.of_int (fst count)) in
  ch_metric txCount (F64.of_int (fst count)) [txcount].

Definition Collect : M unit :=
  accs <- query RpcVoteAccounts (GetVoteAccounts env) ;;
  match snd accs with
  | Some err =>
      emit (EvInvalid totalValidatorsDesc err) ;;
      emit (EvInvalid validatorActivatedStake err) ;;
      emit (EvInvalid validatorLastVote err) ;;
      emit (EvInvalid validatorRootSlot err) ;;
      emit (EvInvalid validatorDelinquent err)
  | None => mustEmitMetrics (fst accs)
  end ;;
  collectRest.

(** *** Observing the cache *)

(** [n] lookups in a row, with their results. *)
Fixpoint lookups (n : nat) : M (list (option EpochInfo * option Err)) :=
  match n with
  | O => ret []
  | S k =>
      r <- getCachedEpochInfo ;;
      rs <- lookups k ;;
      ret (r :: rs)
  end.

(** The entry is absent or no longer live at the next clock reading. *)
Definition expired (w : World) : Prop :=
  match cachedEpochInfo w with
  | Some _ => ttl <= time.Sub (clock env (tick w)) (cachedEpochTime w)
  | None => True
  end.

(** The interaction at which a lookup that misses queries upstream. *)
Definition refreshTick (w : World) : nat :=
  match cachedEpochInfo w with
  | Some _ => S (tick w)
  | None => tick w
  end.

End Exporter.

(** ** Reading traces *)

(** Upstream epoch-info queries recorded in a trace. *)
Fixpoint epochQueries (tr : list Event) : nat :=
  match tr with
  | [] => 0
  | EvQuery RpcEpochInfo :: rest => S (epochQueries rest)
  | _ :: rest => epochQueries rest
  end.

(** Alerts handed to the notification channels. *)
Definition sendOf (e : Event) : list (Channel * string) :=
  match e with EvSend c msg => [(c, msg)] | _ => [] end.

Definition sends (tr : list Event) : list (Channel * string) :=
  flat_map sendOf tr.

(** The alert-count metrics: value and label. *)
Definition indicatorOf (e : Event) : list (float64 * list string) :=
  match e with EvMetric statusAlertCount v l => [(v, l)] | _ => [] end.

Definition indicators (tr : list Event) : list (float64 * list string) :=
  flat_map indicatorOf tr.

(** One alert on each of the three channels. *)
Definition dispatch (msg : string) : list (Channel * string) :=
  [(Telegram, msg); (Email, msg); (Slack, msg)].

(** [n] dispatches and the indicators they leave, starting at [count]. *)
Fixpoint dispatches (msg : string) (n : nat) : list (Channel * string) :=
  match n with
  | O => []
  | S k => (dispatch msg ++ dispatches msg k)%list
  end.

Fixpoint sentCounts (count : float64) (n : nat) : list (float64 * list string) :=
  match n with
  | O => []
  | S k => (count, ["true"]) :: sentCounts (F64.add count F64.one) k
  end.

Fixpoint bump (count : float64) (n : nat) : float64 :=
  match n with
  | O => count
  | S k => bump (F64.add count F64.one) k
  end.

(** The configured slots that equal the current minute. *)
Definition matchingSlots (config : Config) (currentTime : string) : list string :=
  filter (String.eqb currentTime) (alertsArray config).

(** The current minute as [AlertValidatorStatus] reads it in world [w]. *)
Definition currentMinute (env : Env) (w : World) : string :=
  Kitchen.Format (Kitchen.of_instant (clock env (tick w))).

(** A pair of credits that enters the network average. *)
Definition qualifies (cp : float64 * float64) : bool :=
  F64.nonzero (fst cp) && F64.nonzero (snd cp).

(** The vote-height differences emitted. *)
Definition diffOf (e : Event) : list float64 :=
  match e with EvMetric voteHeightDiff v _ => [v] | _ => [] end.

Definition voteHeightDiffs (tr : list Event) : list float64 :=
  flat_map diffOf tr.

(** The network-average credits emitted: value and label. *)
Definition averageOf (e : Event) : list (float64 * list string) :=
  match e with EvMetric networkVoteCredits v l => [(v, l)] | _ => [] end.

Definition networkAverages (tr : list Event) : list (float64 * list string) :=
  flat_map averageOf tr.

(** Whenever [m] returns, what it added to the trace reads as [d]
    through the observation [o]. *)
Definition yields {X A} (o : Event -> list X) (m : M A) (d : list X) : Prop :=
  forall w a w',
    m w = Done a w' ->
    flat_map o (trace w') = (flat_map o (trace w) ++ d)%list.

(** Whenever [m] returns, the cached entry is as before and the
    interaction counter has not gone back. *)
Definition keeps {A} (m : M A) : Prop :=
  forall w a w',
    m w = Done a w' ->
    cachedEpochInfo w' = cachedEpochInfo w /\
    cachedEpochTime w' = cachedEpochTime w /\
    (tick w <= tick w')%nat.

(** The cache holds [info] and stays live at every later clock reading. *)
Definition live (env : Env) (info : EpochInfo) (w : World) : Prop :=
  cachedEpochInfo w = Some info /\
  forall i, (tick w <= i)%nat -> clock env i - cachedEpochTime w < ttl.

(** The credits looked up for each validator of a list. *)
Definition creditsOf (epoch : Z) (l : list VoteAccount) : list (float64 * float64) :=
  map (fun v => (F64.of_int (fst (scanCredits epoch (EpochCredits v))),
                 F64.of_int (snd (scanCredits epoch (EpochCredits v))))) l.

(** One step of the running sums. *)
Definition addPair (a : Credits) (cp : float64 * float64) : Credits :=
  accumulate a (fst cp) (snd cp).

(** Mantissas that are not negative and have at most [d] binary digits. *)
Definition small (d m : Z) : Prop := 0 <= m /\ Zdigits2 m <= d.

(** The world in which [AlertValidatorStatus] enters its second loop:
    the clock has been read and the log line written. *)
Definition alertStart (w : World) : World :=
  {| cachedEpochInfo := cachedEpochInfo w;
     cachedEpochTime := cachedEpochTime w;
     tick := S (tick w);
     trace := trace w ++ [EvLog "Current time and alerts array"] |}.

(** [env] with another dedup query. *)
Definition withDedup (env : Env) (f : nat -> string * option Err) : Env :=
  {| clock := clock env;
     GetEpochInfo := GetEpochInfo env;
     AlertStatusCountFromPrometheus := f;
     SendAlert := SendAlert env;
     GetVoteAccounts := GetVoteAccounts env;
     GetVersion := GetVersion env;
     GetSlotLeader := GetSlotLeader env;
     GetCurrentSlot := GetCurrentSlot env;
     GetTxCount := GetTxCount env;
     NearestThousandFormat := NearestThousandFormat env |}.


(** [w] with [d] appended to its trace. *)
Definition logged (w : World) (d : list Event) : World :=
  {| cachedEpochInfo := cachedEpochInfo w;
     cachedEpochTime := cachedEpochTime w;
     tick := tick w;
     trace := trace w ++ d |}.

(** ** What a collection pass owes for the other four queries *)

Definition versionEvents (env : Env) : list Event :=
  EvQuery RpcVersion ::
  (if String.eqb (fst (GetVersion env)) "" then []
   else [EvMetric solanaVersion F64.one [fst (GetVersion env)]]).

Definition slotLeaderEvents (env : Env) : list Event :=
  EvQuery RpcSlotLeader ::
  match snd (GetSlotLeader env) with
  | Some err => [EvInvalid slotLeader err]
  | None => if String.eqb (fst (GetSlotLeader env)) "" then []
            else [EvMetric slotLeader F64.one [fst (GetSlotLeader env)]]
  end.

Definition currentSlotEvents (env : Env) : list Event :=
  EvQuery RpcCurrentSlot ::
  match snd (GetCurrentSlot env) with
  | Some err => [EvLog "Error while getting current slot info"]
  | None => [EvMetric currentSlot (F64.of_int (fst (GetCurrentSlot env)))
               [FormatInt (fst (GetCurrentSlot env))]]
  end.

Definition txCountEvents (env : Env) : list Event :=
  [EvQuery RpcTxCount;
   EvMetric txCount (F64.of_int (fst (GetTxCount env)))
     [NearestThousandFormat env (F64.of_int (fst (GetTxCount env)))]].

Definition restEvents (env : Env) : list Event :=
  (versionEvents env ++ slotLeaderEvents env ++ currentSlotEvents env
   ++ txCountEvents env)%list.


(** ** Block times *)

(** The mantissa and exponent of an integer below [2^53]. *)
Definition mantissa (p : positive) : positive :=
  match (53 - Zpos (digits2_pos p))%Z with
  | Zpos k => Pos.iter xO p k
  | _ => p
  end.

Definition exponent (p : positive) : Z := Z.min 0 (Zpos (digits2_pos p) - 53).

(** Seconds that [time.Unix] does not wrap around. *)
Definition in_Time (sec : Z) : Prop := in_int64 (sec + time.unixToInternal).

(** The largest whole number of seconds a [Duration] holds. *)
Definition maxSeconds : Z := 9223372036.

(** The canonical form of a whole number of seconds. *)
Definition canonical (n : Z) : float64 * string :=
  let s := strconv.Sprintf_2f (F64.of_int n) in
  (match strconv.ParseFloat s with Some f => f | None => F64.zero end, s).

(** The characters of a decimal numeral and the number they spell after
    the digits already read. *)
Definition chars (d : Decimal.uint) : list ascii :=
  list_ascii_of_string (NilEmpty.string_of_uint d).

Fixpoint spelled (acc : Z) (d : Decimal.uint) : Z :=
  match d with
  | Decimal.Nil => acc
  | Decimal.D0 d => spelled (acc * 10 + 0) d
  | Decimal.D1 d => spelled (acc * 10 + 1) d
  | Decimal.D2 d => spelled (acc * 10 + 2) d
  | Decimal.D3 d => spelled (acc * 10 + 3) d
  | Decimal.D4 d => spelled (acc * 10 + 4) d
  | Decimal.D5 d => spelled (acc * 10 + 5) d
  | Decimal.D6 d => spelled (acc * 10 + 6) d
  | Decimal.D7 d => spelled (acc * 10 + 7) d
  | Decimal.D8 d => spelled (acc * 10 + 8) d
  | Decimal.D9 d => spelled (acc * 10 + 9) d
  end.

(** ** The epoch-credit lookup as the specification words it *)

(** A validator's credit history: 3-tuples (epoch, current, previous). *)
Definition CreditTuple := (Z * Z * Z)%type.

Definition tuple (t : CreditTuple) : list Z :=
  let '(epoch, cur, prev) := t in [epoch; cur; prev].

(** The credits of the first tuple for [epoch], or (0, 0). *)
Definition firstMatch (epoch : Z) (ts : list CreditTuple) : Z * Z :=
  match find (fun t => fst (fst t) =? epoch) ts with
  | Some (_, cur, prev) => (cur, prev)
  | None => (0, 0)
  end.

(** ** Sample environments *)

Definition info101 : EpochInfo := {| Epoch := 101; AbsoluteSlot := 1000 |}.

(** 10:00 UTC on the first day of the Unix epoch, in nanoseconds. *)
Definition tenAM : Z := 36000 * time.Second.

(** Every collaborator answers; the dedup query answers [dedup] with the
    error [dedupErr]. *)
Definition steadyEnv (accs : GetVoteAccountsResponse) (dedup : string)
    (dedupErr : option Err) : Env :=
  {| clock := fun _ => tenAM;
     GetEpochInfo := fun _ => (info101, None);
     AlertStatusCountFromPrometheus := fun _ => (dedup, dedupErr);
     SendAlert := fun _ _ => None;
     GetVoteAccounts := (accs, None);
     GetVersion := ("1.18.22", None);
     GetSlotLeader := ("LeaderKey", None);
     GetCurrentSlot := (250000000, None);
     GetTxCount := (123456, None);
     NearestThousandFormat := fun _ => "123K" |}.

(** The same, with the epoch-info query failing. *)
Definition epochDownEnv (accs : GetVoteAccountsResponse) : Env :=
  {| clock := fun _ => tenAM;
     GetEpochInfo := fun _ => ({| Epoch := 0; AbsoluteSlot := 0 |}, Some "epoch info: timeout");
     AlertStatusCountFromPrometheus := fun _ => ("false", None);
     SendAlert := fun _ _ => None;
     GetVoteAccounts := (accs, None);
     GetVersion := ("1.18.22", None);
     GetSlotLeader := ("LeaderKey", None);
     GetCurrentSlot := (250000000, None);
     GetTxCount := (123456, None);
     NearestThousandFormat := fun _ => "123K" |}.

(** A collector whose cache was filled at [tenAM]. *)
Definition warmWorld : World :=
  {| cachedEpochInfo := Some info101; cachedEpochTime := tenAM;
     tick := 0; trace := [] |}.

Definition noAccounts : GetVoteAccountsResponse :=
  {| Current := []; Delinquent := [] |}.

Definition sampleConfig : Config :=
  {| PubKey := "NodeA"; AlertTimings := ["10:00AM"; "10:05AM"] |}.

(** The same slot configured twice. *)
Definition repeatedSlotConfig : Config :=
  {| PubKey := "NodeA"; AlertTimings := ["10:00AM"; "10:00AM"] |}.

(** The tracked identity with two vote accounts in the current set. *)
Definition twoVoteAccounts : GetVoteAccountsResponse :=
  {| Current :=
       [ {| NodePubkey := "NodeA"; VotePubkey := "VoteA1";
            ActivatedStake := 5000000000; LastVote := 900; RootSlot := 868;
            Commission := 10; EpochVoteAccount := true;
            EpochCredits := [[101; 60; 50]] |};
         {| NodePubkey := "NodeA"; VotePubkey := "VoteA2";
            ActivatedStake := 0; LastVote := 800; RootSlot := 768;
            Commission := 10; EpochVoteAccount := false;
            EpochCredits := [[101; 7; 5]] |} ];
     Delinquent := [] |}.

Definition account (node vote : string) (lastVote : Z)
    (credits : list (list Z)) : VoteAccount :=
  {| NodePubkey := node; VotePubkey := vote; ActivatedStake := 5000000000;
     LastVote := lastVote; RootSlot := lastVote - 32; Commission := 10;
     EpochVoteAccount := true; EpochCredits := credits |}.

(** [m] returns from every world: it never panics. *)
Definition returns {A} (m : M A) : Prop :=
  forall w, exists a w', m w = Done a w'.

(** The voting-status metrics emitted: value and label. *)
Definition statusOf (e : Event) : list (float64 * list string) :=
  match e with EvMetric valVotingStatus v l => [(v, l)] | _ => [] end.

Definition votingStatuses (tr : list Event) : list (float64 * list string) :=
  flat_map statusOf tr.

(** The status a record of the tracked validator is given. *)
Definition votingStatus (vote : VoteAccount) : float64 * list string :=
  if negb (EpochVoteAccount vote) && (ActivatedStake vote <=? 0)
  then (F64.zero, ["Jailed"])
  else (F64.one, ["Voting"]).

(** The descriptors of the metrics emitted. *)
Definition metricOf (e : Event) : list Desc :=
  match e with EvMetric d _ _ => [d] | _ => [] end.

Definition metricDescs (tr : list Event) : list Desc := flat_map metricOf tr.

(** The dedup queries issued. *)
Definition dedupOf (e : Event) : list unit :=
  match e with EvDedupQuery => [tt] | _ => [] end.

Definition dedupQueries (tr : list Event) : list unit := flat_map dedupOf tr.

(** The three alerts sent for a delinquent record of the tracked
    validator. *)
Definition delinquentDispatch : list (Channel * string) :=
  [(Telegram, delinquentMsg); (Email, delinquentMsgEmail); (Slack, delinquentMsg)].

(** ** NewSolanaCollector *)

(** What [prometheus.NewDesc] is given: the metric name, the help text
    and the names of the variable labels. *)
Record DescDecl := {
  fqName : string;
  help : string;
  variableLabels : list string
}.

(** The descriptors [NewSolanaCollector] builds for the fields under
    which the collector emits. *)
Definition NewSolanaCollector (d : Desc) : DescDecl :=
  match d with
  | totalValidatorsDesc =>
      {| fqName := "solana_active_validators";
         help := "Total number of active validators by state";
         variableLabels := ["state"] |}
  | validatorActivatedStake =>
      {| fqName := "solana_validator_activated_stake";
         help := "Activated stake per validator";
         variableLabels := ["votekey"; "pubkey"] |}
  | validatorLastVote =>
      {| fqName := "solana_validator_last_vote";
         help := "Last voted slot per validator";
         variableLabels := ["votekey"; "pubkey"] |}
  | validatorRootSlot =>
      {| fqName := "solana_validator_root_slot";
         help := "Root slot per validator";
         variableLabels := ["votekey"; "pubkey"] |}
  | validatorDelinquent =>
      {| fqName := "solana_validator_delinquent";
         help := "Whether a validator is delinquent";
         variableLabels := ["votekey"; "pubkey"] |}
  | solanaVersion =>
      {| fqName := "solana_node_version";
         help := "Node version of solana";
         variableLabels := ["version"] |}
  | slotLeader =>
      {| fqName := "solana_slot_leader";
         help := "Current slot leader";
         variableLabels := ["solana_slot_leader"] |}
  | currentSlot =>
      {| fqName := "solana_current_slot";
         help := "Current slot height";
         variableLabels := ["solana_current_slot"] |}
  | commission =>
      {| fqName := "solana_val_commission";
         help := "Solana validator current commission.";
         variableLabels := ["solana_val_commission"] |}
  | delinqentCommission =>
      {| fqName := "solana_val_delinquuent_commission";
         help := "Solana validator delinqent commission.";
         variableLabels := ["solana_delinquent_commission"] |}
  | validatorVote =>
      {| fqName := "solana_vote_account";
         help := "whether the vote account is staked for this epoch";
         variableLabels := ["state"] |}
  | statusAlertCount =>
      {| fqName := "solana_val_alert_count";
         help := "Count of alerts about validator status alerting";
         variableLabels := ["alert_count"] |}
  | txCount =>
      {| fqName := "solana_tx_count";
         help := "solana transaction count";
         variableLabels := ["solana_tx_count"] |}
  | netVoteHeight =>
      {| fqName := "solana_network_vote_height";
         help := "solana network vote height";
         variableLabels := ["solana_network_vote_height"] |}
  | valVoteHeight =>
      {| fqName := "solana_validator_vote_height";
         help := "solana validator vote height";
         variableLabels := ["solana_validator_vote_height"] |}
  | voteHeightDiff =>
      {| fqName := "solana_vote_height_diff";
         help := "solana vote height difference of validator and network";
         variableLabels := ["solana_vote_height_diff"] |}
  | valVotingStatus =>
      {| fqName := "solana_val_status";
         help := "solana validator voting status i.e., voting or jailed.";
         variableLabels := ["solana_val_status"] |}
  | voteCredits =>
      {| fqName := "solana_validator_vote_credits";
         help := "solana validator vote credits of previous and current epoch.";
         variableLabels := ["type"] |}
  | networkVoteCredits =>
      {| fqName := "solana_network_vote_credits";
         help := "solana network average vote credits of previous and current epoch.";
         variableLabels := ["type"] |}
  end.

(** A metric whose label values do not match its descriptor's variable
    labels in number, the case in which [MustNewConstMetric] panics. *)
Definition mislabelledOf (e : Event) : list Event :=
  match e with
  | EvMetric d _ labels =>
      if Nat.eqb (List.length labels)
                 (List.length (variableLabels (NewSolanaCollector d)))
      then [] else [e]
  | _ => []
  end.

Definition mislabelled (tr : list Event) : list Event := flat_map mislabelledOf tr.

(** The canonical result for block times too far apart to fit a
    [Duration]. *)
Definition saturatedDiff : float64 * string :=
  (S754_finite false 4835703278456013 (-19), "9223372036.85").

(** ** The collector's other queries *)

(** A node of the cluster as [getClusterNodes] reports it. *)
Record ClusterNode := { Pubkey : string; Gossip : string }.

(** The loop of [getClusterNodeInfo]: every node with the tracked key
    overwrites [address]. *)
Fixpoint gossipLoop (config : Config) (nodes : list ClusterNode)
    (address : string) : string :=
  match nodes with
  | [] => address
  | value :: rest =>
      gossipLoop config rest
        (if String.eqb (Pubkey value) (PubKey config) then Gossip value
         else address)
  end.

(** [getClusterNodeInfo], given the reply of [monitor.GetClusterNodes]. *)
Definition getClusterNodeInfo (config : Config)
    (reply : list ClusterNode * option Err) : M string :=
  when (isErr (snd reply))
       (emit (EvLog "Error while getting cluster node information")) ;;
  ret (gossipLoop config (fst reply) "").

(** The loop of [getNetworkVoteAccountinfo]: every tracked record
    overwrites [outN]. *)
Fixpoint networkVoteLoop (config : Config) (current : list VoteAccount)
    (outN : float64) : float64 :=
  match current with
  | [] => outN
  | vote :: rest =>
      networkVoteLoop config rest
        (if tracked config vote then F64.of_int (LastVote vote) else outN)
  end.

(** [getNetworkVoteAccountinfo], given the reply of
    [monitor.GetVoteAccounts] for the network; its error is dropped. *)
Definition getNetworkVoteAccountinfo (config : Config)
    (reply : GetVoteAccountsResponse * option Err) : float64 :=
  networkVoteLoop config (Current (fst reply)) F64.zero.

(** [getNetworkBlockTime] and [getValidatorBlockTime], given the reply of
    [monitor.GetConfirmedBlock] for their target: the block time of the
    reply, after a log line when the query failed. *)
Definition getNetworkBlockTime (reply : Z * option Err) : M Z :=
  when (isErr (snd reply))
       (emit (EvLog "failed to fetch confirmed time of network, retrying")) ;;
  ret (fst reply).

Definition getValidatorBlockTime (reply : Z * option Err) : M Z :=
  when (isErr (snd reply))
       (emit (EvLog "failed to fetch confirmed time of network, retrying")) ;;
  ret (fst reply).

(** The last element of a list, or [d]. *)
Definition lastOr {A} (d : A) (l : list A) : A := last l d.

(** ** Times of day *)

(** A time of day: hour 0..23 and minute 0..59. *)
Definition validTime (hm : Z * Z) : Prop :=
  0 <= fst hm < 24 /\ 0 <= snd hm < 60.

(** Every time of day. *)
Definition allTimes : list (Z * Z) :=
  flat_map (fun h => map (fun m => (Z.of_nat h, Z.of_nat m)) (seq 0 60)) (seq 0 24).

Definition sameTime (a b : Z * Z) : bool :=
  (fst a =? fst b) && (snd a =? snd b).

(** [Parse] undoes [Format] on the time [hm]. *)
Definition roundTrips (hm : Z * Z) : bool :=
  match Kitchen.Parse (Kitchen.Format hm) with
  | Some hm' => sameTime hm' hm
  | None => false
  end.

(** The time of day a configured slot stands for. *)
Definition slotTime (value : string) : Z * Z :=
  match Kitchen.Parse value with Some hm => hm | None => (0, 0) end.

(** The activated-stake metrics emitted. *)
Definition stakeOf (e : Event) : list float64 :=
  match e with EvMetric validatorActivatedStake v _ => [v] | _ => [] end.

Definition stakes (tr : list Event) : list float64 := flat_map stakeOf tr.

(** The lamports of one SOL. *)
Definition lamportsPerSol : Z := 1000000000.

(** A stake of a whole number of SOL, below [2^53] lamports. *)
Definition wholeSol (vote : VoteAccount) : bool :=
  (0 <=? ActivatedStake vote) && (ActivatedStake vote <? 2 ^ 53)
  && (ActivatedStake vote mod lamportsPerSol =? 0).

(** * Properties *)

Ltac run :=
  cbv [bind ret emit next panic when setCache getCache ch_metric query
       timeNow timeSince monitor_GetEpochInfo fetchEpochInfo
       querier_AlertStatusCountFromPrometheus alerter_Send];
  cbn [fst snd cachedEpochInfo cachedEpochTime tick trace].

(** ** Conversions from integers to float64 *)

Lemma digits2_pos_lower p : 2 ^ (Zpos (digits2_pos p) - 1) <= Zpos p.
Proof.
  induction p as [p IH|p IH|]; cbn [digits2_pos]; [| |cbn; lia].
  - rewrite Pos2Z.inj_succ. replace (Z.succ (Zpos (digits2_pos p)) - 1)
      with (Z.succ (Zpos (digits2_pos p) - 1)) by lia.
    rewrite Z.pow_succ_r by lia. lia.
  - rewrite Pos2Z.inj_succ. replace (Z.succ (Zpos (digits2_pos p)) - 1)
      with (Z.succ (Zpos (digits2_pos p) - 1)) by lia.
    rewrite Z.pow_succ_r by lia. lia.
Qed.

Lemma digits2_pos_int64 p : Zpos p <= 2 ^ 63 -> Zpos (digits2_pos p) <= 64.
Proof.
  intros Hp. destruct (Z.le_gt_cases (Zpos (digits2_pos p)) 64) as [H|H]; [exact H|].
  exfalso. pose proof (digits2_pos_lower p) as Hl.
  assert (2 ^ 64 <= 2 ^ (Zpos (digits2_pos p) - 1)) by (apply Z.pow_le_mono_r; lia).
  assert (2 ^ 63 < 2 ^ 64) by (apply Z.pow_lt_mono_r; lia). lia.
Qed.

Lemma digits2_pos_succ p : Zpos (digits2_pos (Pos.succ p)) <= Zpos (digits2_pos p) + 1.
Proof.
  induction p as [p IH|p IH|]; cbn [Pos.succ digits2_pos]; rewrite ?Pos2Z.inj_succ; lia.
Qed.

Lemma digits2_pos_iter_xO n : forall p,
  Zpos (digits2_pos (Pos.iter xO p n)) = Zpos (digits2_pos p) + Zpos n.
Proof.
  induction n as [|n IH] using Pos.peano_ind; intros p.
  - cbn [Pos.iter digits2_pos]. lia.
  - rewrite Pos.iter_succ. cbn [digits2_pos]. rewrite Pos2Z.inj_succ, IH. lia.
Qed.

Lemma small_shr_1 d mrs : 0 <= d -> small d (shr_m mrs) -> small d (shr_m (shr_1 mrs)).
Proof.
  unfold small. destruct mrs as [m r s]. cbn [shr_m].
  destruct m as [|[p|p|]|p]; cbn [shr_1 shr_m Zdigits2 digits2_pos];
    rewrite ?Pos2Z.inj_succ; lia.
Qed.

Lemma small_iter_shr_1 d n : 0 <= d -> forall mrs,
  small d (shr_m mrs) -> small d (shr_m (iter_pos shr_1 n mrs)).
Proof.
  intros Hd. induction n as [n IH|n IH|]; intros mrs H; cbn [iter_pos];
    auto using small_shr_1.
Qed.

Lemma small_shr_fexp d m e l : 0 <= d -> small d m ->
  small d (shr_m (fst (shr_fexp F64.prec F64.emax m e l))) /\
  snd (shr_fexp F64.prec F64.emax m e l) <= Z.max e (Z.max (d + e - 53) (- 1074)).
Proof.
  intros Hd Hm. unfold shr_fexp, shr, fexp, emin, F64.prec, F64.emax.
  assert (Hrec : small d (shr_m (shr_record_of_loc m l)))
    by (destruct l as [|[]]; exact Hm).
  destruct Hm as [_ Hm].
  destruct (Z.max (Zdigits2 m + e - 53) (3 - 1024 - 53) - e) as [|n|n] eqn:E;
    cbn [fst snd]; (split; [auto using small_iter_shr_1|lia]).
Qed.

Lemma small_round_nearest_even d m l :
  small d m -> small (d + 1) (round_nearest_even m l).
Proof.
  unfold small. intros [H0 Hd].
  assert (Hs : 0 <= m + 1 /\ Zdigits2 (m + 1) <= d + 1).
  { split; [lia|]. destruct m as [|p|p]; [cbn in *; lia| |lia].
    replace (Zpos p + 1) with (Zpos (Pos.succ p)) by lia.
    cbn [Zdigits2] in *. pose proof (digits2_pos_succ p). lia. }
  destruct l as [|[]]; cbn [round_nearest_even]; try destruct (Z.even m); lia.
Qed.

Lemma binary_round_aux_finite d s m e l :
  0 <= d -> small d m -> e <= 0 -> d <= 100 ->
  F64.is_finite (binary_round_aux F64.prec F64.emax s m e l) = true.
Proof.
  intros Hd Hm He Hd'. unfold binary_round_aux.
  pose proof (small_shr_fexp d m e l Hd Hm) as [H1 He1].
  destruct (shr_fexp F64.prec F64.emax m e l) as [mrs' e'] eqn:E1. cbn [fst snd] in *.
  pose proof (small_round_nearest_even d _ (loc_of_shr_record mrs') H1) as H2.
  pose proof (small_shr_fexp (d + 1) _ e' loc_Exact ltac:(lia) H2) as [H3 He2].
  destruct (shr_fexp F64.prec F64.emax
              (round_nearest_even (shr_m mrs') (loc_of_shr_record mrs')) e' loc_Exact)
    as [mrs'' e''] eqn:E2.
  cbn [fst snd] in *. destruct H3 as [H3 _].
  destruct (shr_m mrs'') as [|p|p]; [reflexivity| |lia].
  replace (e'' <=? F64.emax - F64.prec) with true; [reflexivity|].
  symmetry. apply Z.leb_le. unfold F64.emax, F64.prec. lia.
Qed.

(** An [int64] converts to a zero or a finite number, never to an
    infinity or NaN. *)
Lemma of_int_finite z : in_int64 z -> F64.is_finite (F64.of_int z) = true.
Proof.
  unfold in_int64, int64_min, int64_max. intros Hz.
  assert (Hp : forall s p, Zpos p <= 2 ^ 63 ->
            F64.is_finite (binary_round F64.prec F64.emax s p 0) = true).
  { intros s p Hp. unfold binary_round, shl_align.
    pose proof (digits2_pos_int64 p Hp) as Hd.
    destruct (fexp F64.prec F64.emax (Zpos (digits2_pos p) + 0) - 0) as [|n|n] eqn:E.
    - apply (binary_round_aux_finite 64); unfold small; cbn [Zdigits2]; lia.
    - apply (binary_round_aux_finite 64); unfold small; cbn [Zdigits2]; lia.
    - unfold fexp, emin, F64.prec, F64.emax in *.
      apply (binary_round_aux_finite 64); unfold small; cbn [Zdigits2];
        rewrite ?digits2_pos_iter_xO; lia. }
  unfold F64.of_int, binary_normalize. destruct z as [|p|p]; [reflexivity| |];
    apply Hp; lia.
Qed.

(** [x - x] is [+0] for every such [x]. *)
Lemma sub_diag x : F64.is_finite x = true -> F64.sub x x = F64.zero.
Proof.
  destruct x as [[]| | |s m e]; try discriminate; try reflexivity.
  intros _. unfold F64.sub, SFsub. rewrite Z.sub_diag. reflexivity.
Qed.

(** ** The epoch-info cache *)

Section Cache.

Variable env : Env.

Lemma epochQueries_app tr tr' :
  epochQueries (tr ++ tr') = (epochQueries tr + epochQueries tr')%nat.
Proof.
  induction tr as [|e tr IH]; [reflexivity|].
  destruct e as [| |r| | |]; try exact IH.
  destruct r; cbn; try exact IH. now rewrite IH.
Qed.

Lemma Sub_lt_ttl t u : (time.Sub t u <? ttl) = (t - u <? ttl).
Proof.
  unfold time.Sub, ttl, time.minDuration, time.maxDuration, time.Second.
  destruct (t - u <? - 2 ^ 63) eqn:E1; [|destruct (2 ^ 63 - 1 <? t - u) eqn:E2];
    try reflexivity.
  - apply Z.ltb_lt in E1. symmetry. apply Z.ltb_lt. lia.
  - apply Z.ltb_lt in E2. transitivity false; [reflexivity|].
    symmetry. apply Z.ltb_ge. lia.
Qed.

(** A live entry is returned as it is: no query, no change of the
    cached fields, nothing added to the trace. *)
Lemma getCachedEpochInfo_hit w v :
  cachedEpochInfo w = Some v ->
  clock env (tick w) - cachedEpochTime w < ttl ->
  getCachedEpochInfo env w =
    Done (Some v, None)
         {| cachedEpochInfo := cachedEpochInfo w;
            cachedEpochTime := cachedEpochTime w;
            tick := S (tick w);
            trace := trace w |}.
Proof.
  intros Hc Hlt. unfold getCachedEpochInfo. run. rewrite Hc. run.
  rewrite Sub_lt_ttl. apply Z.ltb_lt in Hlt. rewrite Hlt, ?Hc. reflexivity.
Qed.

(** What a lookup that misses does, by the reply of the upstream query. *)
Lemma getCachedEpochInfo_miss w :
  expired env w ->
  getCachedEpochInfo env w =
    match snd (GetEpochInfo env (refreshTick w)) with
    | Some err =>
        Done (None, Some err)
             {| cachedEpochInfo := cachedEpochInfo w;
                cachedEpochTime := cachedEpochTime w;
                tick := S (refreshTick w);
                trace := trace w ++ [EvQuery RpcEpochInfo] |}
    | None =>
        Done (Some (fst (GetEpochInfo env (refreshTick w))), None)
             {| cachedEpochInfo := Some (fst (GetEpochInfo env (refreshTick w)));
                cachedEpochTime := clock env (S (refreshTick w));
                tick := S (S (refreshTick w));
                trace := trace w ++ [EvQuery RpcEpochInfo] |}
    end.
Proof.
  unfold expired, refreshTick, getCachedEpochInfo. run.
  destruct (cachedEpochInfo w) as [v|] eqn:Hc; run.
  - intros Hge. apply Z.ltb_ge in Hge. rewrite Hge. run.
    destruct (snd (GetEpochInfo env (S (tick w)))); rewrite ?Hc; reflexivity.
  - intros _. destruct (snd (GetEpochInfo env (tick w))); rewrite ?Hc; reflexivity.
Qed.

Lemma expired_dec w :
  expired env w \/
  exists v, cachedEpochInfo w = Some v /\
            clock env (tick w) - cachedEpochTime w < ttl.
Proof.
  unfold expired. destruct (cachedEpochInfo w) as [v|] eqn:Hc; [|now left].
  destruct (Z.ltb_spec (time.Sub (clock env (tick w)) (cachedEpochTime w)) ttl)
    as [Hlt|Hge]; [right|now left].
  exists v. split; [reflexivity|].
  apply Z.ltb_lt in Hlt. rewrite Sub_lt_ttl in Hlt. now apply Z.ltb_lt.
Qed.

(** A lookup always returns, issues at most one query, and after a
    successful one the cache holds the value returned. *)
Lemma getCachedEpochInfo_total w :
  exists r w',
    getCachedEpochInfo env w = Done r w' /\
    (tick w <= tick w')%nat /\
    (epochQueries (trace w') <= epochQueries (trace w) + 1)%nat /\
    (forall v, fst r = Some v -> cachedEpochInfo w' = Some v) /\
    (fst r = None -> snd r <> None).
Proof.
  destruct (expired_dec w) as [Hx|(v & Hc & Hlt)].
  - rewrite (getCachedEpochInfo_miss w Hx).
    destruct (snd (GetEpochInfo env (refreshTick w))) as [err|];
      eexists; eexists; (split; [reflexivity|]); cbn [fst snd tick trace cachedEpochInfo];
      rewrite epochQueries_app; cbn;
      (repeat split; try lia; try congruence;
       unfold refreshTick; destruct (cachedEpochInfo w); lia).
  - rewrite (getCachedEpochInfo_hit w v Hc Hlt).
    eexists; eexists; split; [reflexivity|]. cbn [fst snd tick trace cachedEpochInfo].
    repeat split; try lia; congruence.
Qed.

Lemma lookups_live n : forall w v,
  cachedEpochInfo w = Some v ->
  (forall i, (tick w <= i)%nat -> clock env i - cachedEpochTime w < ttl) ->
  exists w',
    lookups env n w = Done (repeat (Some v, None) n) w' /\
    trace w' = trace w /\
    cachedEpochInfo w' = Some v /\
    cachedEpochTime w' = cachedEpochTime w.
Proof.
  induction n as [|n IH]; intros w v Hc Hwin.
  - exists w. repeat split; assumption.
  - cbn [lookups repeat]. unfold bind at 1.
    rewrite (getCachedEpochInfo_hit w v Hc (Hwin _ (Nat.le_refl _))).
    cbv beta iota. unfold bind, ret.
    match goal with |- context [lookups env n ?w1] =>
      destruct (IH w1 v) as (w' & Hrun & Htr & Hc' & Ht') end.
    + exact Hc.
    + intros i Hi. cbn in Hi |- *. apply Hwin. lia.
    + rewrite Hrun. exists w'. repeat split; assumption.
Qed.

End Cache.

(** C5.  After a lookup that returned epoch info, any number of further
    lookups whose clock readings stay within 30 seconds of the entry's
    fetch time return that same value and issue no upstream query, so the
    whole sequence issues at most one. *)
Theorem cache_window_single_query :
  forall env w0 v e w1 n,
    getCachedEpochInfo env w0 = Done (Some v, e) w1 ->
    (forall i, (tick w1 <= i)%nat ->
               clock env i - cachedEpochTime w1 < 30 * time.Second) ->
    exists w2,
      lookups env n w1 = Done (repeat (Some v, None) n) w2 /\
      epochQueries (trace w2) = epochQueries (trace w1) /\
      (epochQueries (trace w2) <= epochQueries (trace w0) + 1)%nat.
Proof.
  intros env w0 v e w1 n Hfirst Hwin.
  destruct (getCachedEpochInfo_total env w0) as (r & w' & Hrun & _ & Hq & Hsome & _).
  rewrite Hfirst in Hrun. injection Hrun as <- <-.
  destruct (lookups_live env n w1 v (Hsome v eq_refl) Hwin)
    as (w2 & Hl & Htr & _ & _).
  exists w2. split; [exact Hl|]. rewrite Htr. split; [reflexivity|exact Hq].
Qed.

(** C6.  A lookup that finds no live entry and whose upstream query fails
    returns the error and no value, and leaves the cached value and its
    timestamp as they were. *)
Theorem cache_refresh_failure_keeps_entry :
  forall env w err,
    expired env w ->
    snd (GetEpochInfo env (refreshTick w)) = Some err ->
    exists w',
      getCachedEpochInfo env w = Done (None, Some err) w' /\
      cachedEpochInfo w' = cachedEpochInfo w /\
      cachedEpochTime w' = cachedEpochTime w /\
      epochQueries (trace w') = S (epochQueries (trace w)).
Proof.
  intros env w err Hx Herr. rewrite (getCachedEpochInfo_miss env w Hx), Herr.
  eexists. split; [reflexivity|]. cbn. rewrite epochQueries_app. cbn.
  repeat split. lia.
Qed.

Lemma cache_window_single_query_witness :
  exists w2,
    lookups (steadyEnv noAccounts "false" None) 3
      {| cachedEpochInfo := Some info101; cachedEpochTime := tenAM;
         tick := 2; trace := [EvQuery RpcEpochInfo] |}
    = Done (repeat (Some info101, None) 3) w2 /\
    epochQueries (trace w2) = 1%nat /\
    (epochQueries (trace w2) <= epochQueries (trace initial) + 1)%nat.
Proof.
  refine (cache_window_single_query (steadyEnv noAccounts "false" None)
            initial info101 None
            {| cachedEpochInfo := Some info101; cachedEpochTime := tenAM;
               tick := 2; trace := [EvQuery RpcEpochInfo] |} 3 _ _).
  - reflexivity.
  - intros i _. vm_compute. reflexivity.
Defined.

Lemma cache_refresh_failure_keeps_entry_witness :
  exists w',
    getCachedEpochInfo (epochDownEnv noAccounts)
      {| cachedEpochInfo := Some info101; cachedEpochTime := tenAM - 31 * time.Second;
         tick := 0; trace := [] |}
    = Done (None, Some "epoch info: timeout") w' /\
    cachedEpochInfo w' = Some info101 /\
    cachedEpochTime w' = tenAM - 31 * time.Second /\
    epochQueries (trace w') = 1%nat.
Proof.
  apply (cache_refresh_failure_keeps_entry (epochDownEnv noAccounts)
           {| cachedEpochInfo := Some info101;
              cachedEpochTime := tenAM - 31 * time.Second;
              tick := 0; trace := [] |}).
  - vm_compute. discriminate.
  - reflexivity.
Defined.

(** ** The epoch-credit lookup *)

Lemma scanCredits_tuples epoch ts :
  scanCredits epoch (map tuple ts) = firstMatch epoch ts.
Proof.
  unfold firstMatch. induction ts as [|[[e c] p] ts IH]; [reflexivity|].
  cbn. destruct (e =? epoch); [reflexivity|exact IH].
Qed.

(** On inner slices of any length: the first one of length at least 3
    whose first element is the epoch decides. *)
Lemma scanCredits_find epoch credits :
  scanCredits epoch credits =
    match find (fun c => (3 <=? Z.of_nat (List.length c)) && (hd 0 c =? epoch)) credits with
    | Some c => (nth 1 c 0, nth 2 c 0)
    | None => (0, 0)
    end.
Proof.
  induction credits as [|c credits IH]; [reflexivity|].
  cbn [scanCredits find].
  destruct c as [|c0 [|c1 [|c2 c]]]; try exact IH.
  cbn [hd List.length nth].
  replace (3 <=? Z.of_nat (S (S (S (List.length c))))) with true
    by (symmetry; apply Z.leb_le; lia).
  cbn [andb]. destruct (c0 =? epoch); [reflexivity|exact IH].
Qed.

Lemma calcualteEpochVoteCredits_run env credits w :
  calcualteEpochVoteCredits env credits w =
    match getCachedEpochInfo env w with
    | Done (Some info, None) w1 =>
        Done (F64.of_int (fst (scanCredits (Epoch info) credits)),
              F64.of_int (snd (scanCredits (Epoch info) credits))) w1
    | Done (Some info, Some _) w1 =>
        Done (F64.of_int (fst (scanCredits (Epoch info) credits)),
              F64.of_int (snd (scanCredits (Epoch info) credits)))
             {| cachedEpochInfo := cachedEpochInfo w1;
                cachedEpochTime := cachedEpochTime w1;
                tick := tick w1;
                trace := trace w1 ++ [EvLog "Error while getting epoch info"] |}
    | Done (None, Some _) w1 =>
        Panic {| cachedEpochInfo := cachedEpochInfo w1;
                 cachedEpochTime := cachedEpochTime w1;
                 tick := tick w1;
                 trace := trace w1 ++ [EvLog "Error while getting epoch info"] |}
    | Done (None, None) w1 => Panic w1
    | Panic w1 => Panic w1
    end.
Proof.
  unfold calcualteEpochVoteCredits, bind.
  destruct (getCachedEpochInfo env w) as [[[info|] [err|]] w1|w1]; reflexivity.
Qed.

(** C7.  With epoch info at hand, the lookup over a history of 3-tuples
    returns the credits of the first tuple for the cached epoch and (0, 0)
    when there is none; on [[100,50,40],[101,60,50]] that is (60, 50) for
    epoch 101 and (0, 0) for epoch 999. *)
Theorem epoch_credit_lookup_first_match :
  forall env w info w1,
    getCachedEpochInfo env w = Done (Some info, None) w1 ->
    (forall ts,
       calcualteEpochVoteCredits env (map tuple ts) w =
         Done (F64.of_int (fst (firstMatch (Epoch info) ts)),
               F64.of_int (snd (firstMatch (Epoch info) ts))) w1) /\
    (Epoch info = 101 ->
       calcualteEpochVoteCredits env [[100; 50; 40]; [101; 60; 50]] w =
         Done (F64.of_int 60, F64.of_int 50) w1) /\
    (Epoch info = 999 ->
       calcualteEpochVoteCredits env [[100; 50; 40]; [101; 60; 50]] w =
         Done (F64.of_int 0, F64.of_int 0) w1).
Proof.
  intros env w info w1 Hc. repeat split.
  - intros ts. rewrite calcualteEpochVoteCredits_run, Hc, scanCredits_tuples.
    reflexivity.
  - intros He. rewrite calcualteEpochVoteCredits_run, Hc, He. reflexivity.
  - intros He. rewrite calcualteEpochVoteCredits_run, Hc, He. reflexivity.
Qed.

Lemma epoch_credit_lookup_first_match_witness :
  calcualteEpochVoteCredits (steadyEnv noAccounts "false" None)
    [[100; 50; 40]; [101; 60; 50]] initial =
  Done (F64.of_int 60, F64.of_int 50)
       {| cachedEpochInfo := Some info101; cachedEpochTime := tenAM;
          tick := 2; trace := [EvQuery RpcEpochInfo] |}.
Proof.
  refine (proj1 (proj2 (epoch_credit_lookup_first_match
            (steadyEnv noAccounts "false" None) initial info101 _ _)) _);
    reflexivity.
Defined.

(** C2.  A lookup that finds no live entry and whose upstream query fails
    makes the epoch-credit computation dereference the absent epoch info:
    after logging the error it panics. *)
Theorem epoch_credits_panic_on_fetch_failure :
  forall env credits w err,
    expired env w ->
    snd (GetEpochInfo env (refreshTick w)) = Some err ->
    exists w', calcualteEpochVoteCredits env credits w = Panic w'.
Proof.
  intros env credits w err Hx Herr.
  rewrite calcualteEpochVoteCredits_run, (getCachedEpochInfo_miss env w Hx), Herr.
  eexists. reflexivity.
Qed.

Lemma epoch_credits_panic_on_fetch_failure_witness :
  exists w',
    calcualteEpochVoteCredits (epochDownEnv noAccounts)
      [[100; 50; 40]; [101; 60; 50]] initial = Panic w'.
Proof.
  apply (epoch_credits_panic_on_fetch_failure (epochDownEnv noAccounts)
           [[100; 50; 40]; [101; 60; 50]] initial "epoch info: timeout").
  - exact I.
  - reflexivity.
Defined.

(** The panic takes the whole collection pass with it: with one record
    in the current set and the epoch-info query failing, [Collect] ends
    in a panic before any of the later queries is issued. *)
Lemma Collect_panics_when_epoch_info_fails :
  Collect (epochDownEnv {| Current := [account "NodeB" "VoteB" 900 []];
                           Delinquent := [] |})
          sampleConfig initial =
  Panic {| cachedEpochInfo := None; cachedEpochTime := 0; tick := 2;
           trace := [EvQuery RpcVoteAccounts;
                     EvMetric totalValidatorsDesc (F64.of_int 0) ["delinquent"];
                     EvMetric totalValidatorsDesc (F64.of_int 1) ["current"];
                     EvQuery RpcEpochInfo;
                     EvLog "Error while getting epoch info";
                     EvQuery RpcEpochInfo;
                     EvLog "Error while getting epoch info"] |}.
Proof. vm_compute. reflexivity. Qed.

(** ** The status alert *)

Lemma bind_Done {A B} (m : M A) (k : A -> M B) w b w' :
  bind m k w = Done b w' ->
  exists a w1, m w = Done a w1 /\ k a w1 = Done b w'.
Proof.
  unfold bind. destruct (m w) as [a w1|w1]; [|discriminate].
  intros H. now exists a, w1.
Qed.

Lemma sends_app tr d : sends (tr ++ d) = (sends tr ++ sends d)%list.
Proof. apply flat_map_app. Qed.

Lemma indicators_app tr d :
  indicators (tr ++ d) = (indicators tr ++ indicators d)%list.
Proof. apply flat_map_app. Qed.

Section Alert.

Variable env : Env.
Variable config : Config.
Variable msg : string.

Lemma sendAll_run w :
  exists w',
    sendAll env msg w = Done tt w' /\
    sends (trace w') = (sends (trace w) ++ dispatch msg)%list /\
    indicators (trace w') = indicators (trace w).
Proof.
  unfold sendAll. run.
  destruct (SendAlert env Telegram (tick w)),
           (SendAlert env Email (S (tick w))),
           (SendAlert env Slack (S (S (tick w))));
    cbn [isErr]; eexists; (split; [reflexivity|]);
    cbn [trace]; rewrite ?sends_app, ?indicators_app; cbn;
    rewrite <- ?app_assoc, ?app_nil_r; split; reflexivity.
Qed.

(** With the dedup query answering "false" throughout, every matching
    slot dispatches once and the loop goes on to the next slot. *)
Lemma alertLoop_false cur :
  (forall i, fst (AlertStatusCountFromPrometheus env i) = "false") ->
  forall l count w,
  exists w',
    alertLoop env msg cur l count w
      = Done (bump count (List.length (filter (String.eqb cur) l))) w' /\
    sends (trace w')
      = (sends (trace w) ++ dispatches msg (List.length (filter (String.eqb cur) l)))%list /\
    indicators (trace w')
      = (indicators (trace w)
         ++ sentCounts count (List.length (filter (String.eqb cur) l)))%list.
Proof.
  intros Hfalse. induction l as [|slot l IH]; intros count w.
  - exists w. cbn. now rewrite !app_nil_r.
  - cbn [alertLoop filter]. destruct (String.eqb cur slot); [|apply IH].
    unfold bind at 1, querier_AlertStatusCountFromPrometheus. run.
    rewrite Hfalse. cbn [String.eqb Ascii.eqb Bool.eqb].
    match goal with |- context [sendAll env msg ?w0] =>
      destruct (sendAll_run w0) as (w1 & Hs & Hsends & Hind) end.
    rewrite Hs. cbn [trace] in Hsends, Hind.
    rewrite sends_app in Hsends. rewrite indicators_app in Hind.
    cbn in Hsends, Hind. rewrite app_nil_r in Hsends, Hind.
    match goal with |- context [alertLoop env msg cur l ?c ?w2] =>
      destruct (IH c w2) as (w' & Hrun & Hs' & Hi') end.
    exists w'. split; [exact Hrun|].
    cbn [trace] in Hs', Hi'. rewrite sends_app in Hs'. rewrite indicators_app in Hi'.
    cbn in Hs', Hi'. rewrite app_nil_r in Hs'.
    rewrite Hs', Hi', Hsends, Hind. cbn [List.length dispatches sentCounts].
    rewrite <- !app_assoc. split; reflexivity.
Qed.

(** With the dedup query never answering "false", nothing is dispatched:
    the first matching slot records an already-sent indicator and ends
    the function. *)
Lemma alertLoop_not_false cur :
  (forall i, fst (AlertStatusCountFromPrometheus env i) <> "false") ->
  forall l count w,
  exists w',
    alertLoop env msg cur l count w = Done count w' /\
    sends (trace w') = sends (trace w) /\
    indicators (trace w')
      = (indicators (trace w)
         ++ match filter (String.eqb cur) l with
            | [] => []
            | _ => [(count, ["false"])]
            end)%list.
Proof.
  intros Hnot. induction l as [|slot l IH]; intros count w.
  - exists w. cbn. now rewrite app_nil_r.
  - cbn [alertLoop filter]. destruct (String.eqb cur slot); [|apply IH].
    unfold bind at 1, querier_AlertStatusCountFromPrometheus. run.
    destruct (String.eqb_spec (fst (AlertStatusCountFromPrometheus env (tick w))) "false")
      as [Heq|_]; [now apply Hnot in Heq|].
    eexists. split; [reflexivity|]. cbn [trace].
    rewrite !sends_app, !indicators_app. cbn. rewrite !app_nil_r.
    split; reflexivity.
Qed.

End Alert.


Lemma AlertValidatorStatus_start env config msg w :
  AlertValidatorStatus env config msg w =
    match alertLoop env msg (currentMinute env w) (alertsArray config) F64.zero
            (alertStart w) with
    | Done _ w' => Done tt w'
    | Panic w' => Panic w'
    end.
Proof. reflexivity. Qed.

Lemma sends_alertStart w : sends (trace (alertStart w)) = sends (trace w).
Proof. cbn. rewrite sends_app. cbn. apply app_nil_r. Qed.

Lemma indicators_alertStart w :
  indicators (trace (alertStart w)) = indicators (trace w).
Proof. cbn. rewrite indicators_app. cbn. apply app_nil_r. Qed.

(** C3, as stated, fails: with the matching slot configured twice and the
    dedup query answering "false" both times, each channel is sent the
    alert twice in one evaluation. *)
Lemma alert_tick_repeated_slot_dispatches_twice :
  ~ (forall env config msg w,
       In (currentMinute env w) (alertsArray config) ->
       (forall i, fst (AlertStatusCountFromPrometheus env i) = "false") ->
       exists w',
         AlertValidatorStatus env config msg w = Done tt w' /\
         sends (trace w') = (sends (trace w) ++ dispatch msg)%list).
Proof.
  intros H.
  destruct (H (steadyEnv noAccounts "false" None) repeatedSlotConfig
              "Solana validator is VOTING" initial)
    as (w' & Hrun & Hsends).
  - left. reflexivity.
  - intros i. reflexivity.
  - vm_compute in Hrun. injection Hrun as <-. discriminate Hsends.
Qed.

(** C3, amended.  With the dedup query answering "false", an evaluation
    sends the alert on each of the three channels once for every
    configured slot that equals the current minute, records a sent
    indicator with the running count each time, and goes on through the
    remaining slots.  When exactly one slot equals the current minute
    that is one dispatch per channel, one indicator carrying 0, and the
    count raised by one.  An evaluation at the same minute with the dedup
    query answering "true" sends nothing, and records an already-sent
    indicator if a slot matches. *)
Theorem alert_tick_dispatch_per_matching_slot :
  forall env config msg w w2,
    (forall i, fst (AlertStatusCountFromPrometheus env i) = "false") ->
    currentMinute env w2 = currentMinute env w ->
    let n := List.length (matchingSlots config (currentMinute env w)) in
    (exists w',
       AlertValidatorStatus env config msg w = Done tt w' /\
       alertLoop env msg (currentMinute env w) (alertsArray config) F64.zero
         (alertStart w) = Done (bump F64.zero n) w' /\
       sends (trace w') = (sends (trace w) ++ dispatches msg n)%list /\
       indicators (trace w')
         = (indicators (trace w) ++ sentCounts F64.zero n)%list /\
       (n = 1%nat ->
        bump F64.zero n = F64.add F64.zero F64.one /\
        sends (trace w') = (sends (trace w) ++ dispatch msg)%list /\
        indicators (trace w')
          = (indicators (trace w) ++ [(F64.zero, ["true"])])%list)) /\
    (exists w',
       AlertValidatorStatus (withDedup env (fun _ => ("true", None))) config msg w2
         = Done tt w' /\
       sends (trace w') = sends (trace w2) /\
       (n <> 0%nat ->
        indicators (trace w')
          = (indicators (trace w2) ++ [(F64.zero, ["false"])])%list)).
Proof.
  intros env config msg w w2 Hfalse Hsame n. split.
  - destruct (alertLoop_false env msg (currentMinute env w) Hfalse
                (alertsArray config) F64.zero (alertStart w))
      as (w' & Hrun & Hs & Hi).
    fold (matchingSlots config (currentMinute env w)) in Hrun, Hs, Hi.
    fold n in Hrun, Hs, Hi.
    rewrite sends_alertStart in Hs. rewrite indicators_alertStart in Hi.
    exists w'. rewrite AlertValidatorStatus_start, Hrun.
    repeat split; try assumption; rewrite ?Hs, ?Hi, H; cbn [dispatches sentCounts];
      rewrite ?app_nil_r; reflexivity.
  - set (env' := withDedup env (fun _ => ("true", None))).
    destruct (alertLoop_not_false env' msg (currentMinute env' w2)
                (fun i => ltac:(discriminate)) (alertsArray config) F64.zero
                (alertStart w2))
      as (w' & Hrun & Hs & Hi).
    exists w'. rewrite AlertValidatorStatus_start, Hrun.
    rewrite sends_alertStart in Hs. rewrite indicators_alertStart in Hi.
    change (currentMinute env' w2) with (currentMinute env w2) in Hi.
    rewrite Hsame in Hi. fold (matchingSlots config (currentMinute env w)) in Hi.
    repeat split; [assumption|]. intros Hn. subst n.
    destruct (matchingSlots config (currentMinute env w)); [contradiction|exact Hi].
Qed.

Lemma alert_tick_dispatch_per_matching_slot_witness :
  (exists w',
     AlertValidatorStatus (steadyEnv noAccounts "false" None) sampleConfig
       "Solana validator is VOTING" initial = Done tt w' /\
     alertLoop (steadyEnv noAccounts "false" None) "Solana validator is VOTING"
       "10:00AM" ["10:00AM"; "10:05AM"] F64.zero (alertStart initial)
       = Done F64.one w' /\
     sends (trace w') = dispatch "Solana validator is VOTING" /\
     indicators (trace w') = [(F64.zero, ["true"])] /\
     (1%nat = 1%nat ->
      F64.one = F64.add F64.zero F64.one /\
      sends (trace w') = dispatch "Solana validator is VOTING" /\
      indicators (trace w') = [(F64.zero, ["true"])])) /\
  (exists w',
     AlertValidatorStatus
       (withDedup (steadyEnv noAccounts "false" None) (fun _ => ("true", None)))
       sampleConfig "Solana validator is VOTING" initial = Done tt w' /\
     sends (trace w') = [] /\
     (1%nat <> 0%nat -> indicators (trace w') = [(F64.zero, ["false"])])).
Proof.
  refine (alert_tick_dispatch_per_matching_slot (steadyEnv noAccounts "false" None)
            sampleConfig "Solana validator is VOTING" initial initial _ _).
  - intros i. reflexivity.
  - reflexivity.
Defined.

(** The same double dispatch with three different configured strings:
    the second and third do not parse, and unparsable slots all stand
    for midnight. *)
Lemma unparsable_slots_share_midnight :
  map Kitchen.normalize ["22:00"; "10:00am"; "noon"]
    = ["12:00AM"; "12:00AM"; "12:00AM"].
Proof. reflexivity. Qed.




(** ** The collection pass *)

Lemma logged_logged w d d' : logged (logged w d) d' = logged w (d ++ d').
Proof. unfold logged. cbn. now rewrite app_assoc. Qed.

Lemma emit_logged e w : emit e w = Done tt (logged w [e]).
Proof. reflexivity. Qed.

(** The four later queries are issued in order, whatever they reply, and
    each leaves the events its own reply calls for. *)
Lemma collectRest_run env w :
  collectRest env w = Done tt (logged w (restEvents env)).
Proof.
  unfold collectRest, restEvents, versionEvents, slotLeaderEvents,
    currentSlotEvents, txCountEvents, logged. run.
  destruct (String.eqb (fst (GetVersion env)) ""),
           (snd (GetSlotLeader env)),
           (String.eqb (fst (GetSlotLeader env)) ""),
           (snd (GetCurrentSlot env));
    cbn; rewrite <- ?app_assoc; reflexivity.
Qed.



(** ** What a run adds to the trace *)

Section Yields.

Context {X : Type} (o : Event -> list X).

Lemma yields_ret {A} (a : A) : yields o (ret a) [].
Proof. intros w b w' H. injection H as <- <-. now rewrite app_nil_r. Qed.

Lemma yields_panic {A} d : yields o (@panic A) d.
Proof. intros w b w' H. discriminate H. Qed.

Lemma yields_emit e : yields o (emit e) (o e).
Proof.
  intros w b w' H. injection H as <- <-. cbn [trace].
  rewrite flat_map_app. cbn. now rewrite app_nil_r.
Qed.

Lemma yields_next : yields o next [].
Proof. intros w b w' H. injection H as <- <-. cbn. now rewrite app_nil_r. Qed.

Lemma yields_getCache : yields o getCache [].
Proof. intros w b w' H. injection H as <- <-. now rewrite app_nil_r. Qed.

Lemma yields_setCache v t : yields o (setCache v t) [].
Proof. intros w b w' H. injection H as <- <-. cbn. now rewrite app_nil_r. Qed.

Lemma yields_bind {A B} (m : M A) (k : A -> M B) d1 d2 d :
  yields o m d1 -> (forall a, yields o (k a) d2) -> d = (d1 ++ d2)%list ->
  yields o (bind m k) d.
Proof.
  intros Hm Hk -> w b w' H.
  apply bind_Done in H as (a & w1 & H1 & H2).
  rewrite (Hk a _ _ _ H2), (Hm _ _ _ H1). now rewrite app_assoc.
Qed.

Lemma yields_quiet_bind {A B} (m : M A) (k : A -> M B) d :
  yields o m [] -> (forall a, yields o (k a) d) -> yields o (bind m k) d.
Proof. intros Hm Hk. now apply (yields_bind m k [] d). Qed.

Lemma yields_when b m d :
  yields o m d -> yields o (when b m) (if b then d else []).
Proof. destruct b; [trivial|intros _; apply yields_ret]. Qed.

Lemma yields_forM_quiet {A} (f : A -> M unit) l :
  (forall x, yields o (f x) []) -> yields o (forM l f) [].
Proof.
  intros Hf. induction l as [|x l IH]; [apply yields_ret|].
  cbn [forM]. apply yields_quiet_bind; [apply Hf|intros _; exact IH].
Qed.

(** Observations that see no query, log line, alert or alert count. *)
Hypothesis o_query : forall r, o (EvQuery r) = [].
Hypothesis o_log : forall l, o (EvLog l) = [].
Hypothesis o_send : forall c msg, o (EvSend c msg) = [].
Hypothesis o_dedup : o EvDedupQuery = [].
Hypothesis o_indicator : forall v l, o (EvMetric statusAlertCount v l) = [].

Lemma yields_log l : yields o (emit (EvLog l)) [].
Proof. rewrite <- (o_log l). apply yields_emit. Qed.

Lemma yields_when_log b l : yields o (when b (emit (EvLog l))) [].
Proof. destruct b; [apply yields_log|apply yields_ret]. Qed.

Variable env : Env.

Lemma yields_timeNow : yields o (timeNow env) [].
Proof.
  apply yields_quiet_bind; [apply yields_next|intros; apply yields_ret].
Qed.

Lemma yields_fetchEpochInfo : yields o (fetchEpochInfo env) [].
Proof.
  unfold fetchEpochInfo, monitor_GetEpochInfo.
  apply yields_quiet_bind.
  - apply yields_quiet_bind; [apply yields_next|intros i].
    apply yields_quiet_bind; [|intros; apply yields_ret].
    rewrite <- (o_query RpcEpochInfo). apply yields_emit.
  - intros r. destruct (snd r); [apply yields_ret|].
    apply yields_quiet_bind; [apply yields_timeNow|intros now].
    apply yields_quiet_bind; [apply yields_setCache|intros; apply yields_ret].
Qed.

Lemma yields_getCachedEpochInfo : yields o (getCachedEpochInfo env) [].
Proof.
  unfold getCachedEpochInfo.
  apply yields_quiet_bind; [apply yields_getCache|intros c].
  destruct (fst c); [|apply yields_fetchEpochInfo].
  apply yields_quiet_bind.
  - unfold timeSince. apply yields_quiet_bind; [apply yields_timeNow|].
    intros; apply yields_ret.
  - intros since. destruct (since <? ttl);
      [apply yields_ret|apply yields_fetchEpochInfo].
Qed.

Lemma yields_calcualteEpochVoteCredits credits :
  yields o (calcualteEpochVoteCredits env credits) [].
Proof.
  unfold calcualteEpochVoteCredits.
  apply yields_quiet_bind; [apply yields_getCachedEpochInfo|intros r].
  apply yields_quiet_bind; [apply yields_when_log|intros _].
  destruct (fst r); [apply yields_ret|apply yields_panic].
Qed.

Lemma yields_alerter_Send c msg : yields o (alerter_Send env c msg) [].
Proof.
  unfold alerter_Send.
  apply yields_quiet_bind; [apply yields_next|intros i].
  apply yields_quiet_bind; [|intros; apply yields_ret].
  rewrite <- (o_send c msg). apply yields_emit.
Qed.

Lemma yields_sendAll msg : yields o (sendAll env msg) [].
Proof.
  unfold sendAll.
  do 3 (apply yields_quiet_bind; [apply yields_alerter_Send|intros ?]).
  do 2 (apply yields_quiet_bind; [apply yields_when_log|intros _]).
  apply yields_when_log.
Qed.

Lemma yields_alertLoop msg cur l :
  forall count, yields o (alertLoop env msg cur l count) [].
Proof.
  induction l as [|slot l IH]; intros count; [apply yields_ret|].
  cbn [alertLoop]. destruct (String.eqb cur slot); [|apply IH].
  apply yields_quiet_bind.
  - unfold querier_AlertStatusCountFromPrometheus.
    apply yields_quiet_bind; [apply yields_next|intros i].
    apply yields_quiet_bind; [|intros; apply yields_ret].
    rewrite <- o_dedup. apply yields_emit.
  - intros r. destruct (String.eqb (fst r) "false").
    + apply yields_quiet_bind; [apply yields_sendAll|intros _].
      apply yields_quiet_bind; [|intros _; apply IH].
      rewrite <- (o_indicator count ["true"]). apply yields_emit.
    + apply yields_quiet_bind; [|intros _; apply yields_ret].
      rewrite <- (o_indicator count ["false"]). apply yields_emit.
Qed.

Lemma yields_AlertValidatorStatus config msg :
  yields o (AlertValidatorStatus env config msg) [].
Proof.
  unfold AlertValidatorStatus.
  apply yields_quiet_bind; [apply yields_timeNow|intros now].
  apply yields_quiet_bind; [apply yields_log|intros _].
  apply yields_quiet_bind; [apply yields_alertLoop|intros; apply yields_ret].
Qed.

End Yields.

(** ** The vote-height difference *)

Ltac quiet_emit :=
  apply yields_quiet_bind; [exact (yields_emit _ _)|intros _].

Section VoteHeight.

Variable env : Env.
Variable config : Config.

Lemma diffs_AlertValidatorStatus msg :
  yields diffOf (AlertValidatorStatus env config msg) [].
Proof. apply yields_AlertValidatorStatus; intros; reflexivity. Qed.

Lemma diffs_emitTracked netresult vote c p :
  yields diffOf (emitTracked env config netresult vote c p)
    [F64.sub netresult (F64.of_int (LastVote vote))].
Proof.
  unfold emitTracked. do 4 quiet_emit.
  apply yields_quiet_bind.
  { destruct (negb (EpochVoteAccount vote) && (ActivatedStake vote <=? 0));
      (apply yields_quiet_bind; [apply diffs_AlertValidatorStatus|intros _]);
      exact (yields_emit _ _). }
  intros _. do 2 quiet_emit.
  eapply yields_bind; [exact (yields_emit _ _)| |reflexivity].
  intros _. quiet_emit. exact (yields_emit _ _).
Qed.

Lemma diffs_currentLoop netresult l :
  forall acc,
    yields diffOf (currentLoop env config netresult l acc)
      (map (fun v => F64.sub netresult (F64.of_int (LastVote v)))
           (filter (tracked config) l)).
Proof.
  induction l as [|vote l IH]; intros acc; [apply yields_ret|].
  cbn [currentLoop filter].
  apply yields_quiet_bind;
    [apply yields_calcualteEpochVoteCredits; intros; reflexivity|intros cp].
  destruct (tracked config vote).
  - eapply yields_bind; [apply diffs_emitTracked|intros _; apply IH|reflexivity].
  - apply yields_quiet_bind; [apply yields_ret|intros _; apply IH].
Qed.

Lemma diffs_emitDelinquent vote : yields diffOf (emitDelinquent env vote) [].
Proof.
  unfold emitDelinquent. do 2 quiet_emit.
  do 2 (apply yields_quiet_bind;
          [apply yields_alerter_Send; intros; reflexivity|intros ?];
        apply yields_quiet_bind;
          [apply yields_when_log; intros; reflexivity|intros _]).
  apply yields_quiet_bind;
    [apply yields_alerter_Send; intros; reflexivity|intros ?].
  apply yields_when_log; intros; reflexivity.
Qed.

(** Every tracked record of the current set gets a difference: the last
    vote of the first tracked record minus its own. *)
Lemma diffs_mustEmitMetrics response :
  yields diffOf (mustEmitMetrics env config response)
    (map (fun v => F64.sub (netVote config (Current response))
                     (F64.of_int (LastVote v)))
         (filter (tracked config) (Current response))).
Proof.
  unfold mustEmitMetrics. do 2 quiet_emit.
  apply yields_quiet_bind.
  { apply yields_forM_quiet. intros account.
    destruct (tracked config account); [|apply yields_ret].
    cbn [when]. quiet_emit. exact (yields_emit _ _). }
  intros _.
  apply yields_quiet_bind;
    [apply yields_getCachedEpochInfo; intros; reflexivity|intros r].
  apply yields_quiet_bind; [apply yields_when_log; intros; reflexivity|intros _].
  eapply yields_bind; [apply diffs_currentLoop| |symmetry; apply app_nil_r].
  intros acc. do 2 quiet_emit.
  apply yields_forM_quiet. intros vote.
  destruct (tracked config vote); [apply diffs_emitDelinquent|apply yields_ret].
Qed.

Lemma netVote_first l : forall v rest,
  filter (tracked config) l = v :: rest ->
  netVote config l = F64.of_int (LastVote v).
Proof.
  induction l as [|x l IH]; intros v rest H; [discriminate H|].
  cbn [filter netVote] in *. destruct (tracked config x).
  - now injection H as -> _.
  - eapply IH, H.
Qed.

End VoteHeight.

(** C10, as stated, fails: with the tracked identity on two records of the
    current set, the second difference is the first record's last vote
    minus the second's, here 900 - 800. *)
Lemma vote_height_diff_second_record_nonzero :
  ~ (forall env config response w',
       existsb (tracked config) (Current response) = true ->
       mustEmitMetrics env config response initial = Done tt w' ->
       forall v, In v (voteHeightDiffs (trace w')) -> v = F64.zero).
Proof.
  intros H.
  assert (Hv : F64.of_int 100 = F64.zero); [|discriminate Hv].
  eapply (H (steadyEnv twoVoteAccounts "true" None) sampleConfig twoVoteAccounts).
  - reflexivity.
  - vm_compute. reflexivity.
  - vm_compute. right. left. reflexivity.
Qed.

(** C10, amended.  In a pass that returns, the tracked identity's first
    record in the current set gets the difference 0: both operands are
    that record's last vote.  Any further record of the same identity
    gets the first record's last vote minus its own.  So an identity that
    appears once gets exactly one difference, and it is 0. *)
Theorem vote_height_diff_first_record_zero :
  forall env config response w w' v rest,
    mustEmitMetrics env config response w = Done tt w' ->
    filter (tracked config) (Current response) = v :: rest ->
    in_int64 (LastVote v) ->
    voteHeightDiffs (trace w')
      = (voteHeightDiffs (trace w)
         ++ F64.zero
            :: map (fun r => F64.sub (F64.of_int (LastVote v))
                               (F64.of_int (LastVote r))) rest)%list.
Proof.
  intros env config response w w' v rest Hrun Hfilter Hv.
  unfold voteHeightDiffs.
  rewrite (diffs_mustEmitMetrics env config response _ _ _ Hrun).
  rewrite Hfilter, (netVote_first config _ _ _ Hfilter). cbn [map].
  now rewrite (sub_diag _ (of_int_finite _ Hv)).
Qed.

Lemma vote_height_diff_first_record_zero_witness :
  exists w',
    mustEmitMetrics (steadyEnv twoVoteAccounts "true" None) sampleConfig
      {| Current := [account "NodeB" "VoteB" 905 [[101; 60; 50]];
                     account "NodeA" "VoteA" 900 [[101; 58; 50]]];
         Delinquent := [] |} initial = Done tt w' /\
    voteHeightDiffs (trace w') = [F64.zero].
Proof.
  eexists. split; [vm_compute; reflexivity|].
  refine (vote_height_diff_first_record_zero
            (steadyEnv twoVoteAccounts "true" None) sampleConfig
            {| Current := [account "NodeB" "VoteB" 905 [[101; 60; 50]];
                           account "NodeA" "VoteA" 900 [[101; 58; 50]]];
               Delinquent := [] |} initial _
            (account "NodeA" "VoteA" 900 [[101; 58; 50]]) [] _ _ _).
  - vm_compute. reflexivity.
  - reflexivity.
  - vm_compute. split; discriminate.
Defined.

(** ** The block-time difference *)

Lemma iter_xO_value k : forall p, Zpos (Pos.iter xO p k) = Zpos p * 2 ^ Zpos k.
Proof.
  induction k as [|k IH] using Pos.peano_ind; intros p.
  - cbn [Pos.iter]. lia.
  - rewrite Pos.iter_succ, Pos2Z.inj_succ, Z.pow_succ_r by lia.
    rewrite Pos2Z.inj_xO, IH. lia.
Qed.

Lemma digits2_pos_53 p : Zpos p < 2 ^ 53 -> Zpos (digits2_pos p) <= 53.
Proof.
  intros Hp. destruct (Z.le_gt_cases (Zpos (digits2_pos p)) 53) as [H|H]; [exact H|].
  exfalso. pose proof (digits2_pos_lower p) as Hl.
  assert (2 ^ 53 <= 2 ^ (Zpos (digits2_pos p) - 1)) by (apply Z.pow_le_mono_r; lia).
  lia.
Qed.

Lemma binary_round_exact s p :
  Zpos p < 2 ^ 53 ->
  binary_round F64.prec F64.emax s p 0 = S754_finite s (mantissa p) (exponent p).
Proof.
  intros Hp. pose proof (digits2_pos_53 p Hp) as Hd.
  pose proof (Pos2Z.is_pos (digits2_pos p)) as Hd0.
  unfold binary_round, shl_align, mantissa, exponent, fexp, emin, F64.prec, F64.emax.
  rewrite Z.add_0_r, Z.sub_0_r.
  replace (Z.max (Zpos (digits2_pos p) - 53) (3 - 1024 - 53))
    with (Zpos (digits2_pos p) - 53) by lia.
  destruct (Zpos (digits2_pos p) - 53) as [|k|k] eqn:Ek; try lia.
  - replace (53 - Zpos (digits2_pos p)) with 0 by lia. cbn [Z.min Z.compare].
    unfold binary_round_aux, shr_fexp, shr, fexp, emin. cbn [Zdigits2 shr_record_of_loc].
    replace (Z.max (Zpos (digits2_pos p) + 0 - 53) (3 - 1024 - 53) - 0) with 0 by lia.
    cbn [shr_m loc_of_shr_record round_nearest_even Zdigits2].
    replace (Z.max (Zpos (digits2_pos p) + 0 - 53) (3 - 1024 - 53) - 0) with 0 by lia.
    reflexivity.
  - replace (53 - Zpos (digits2_pos p)) with (Zpos k) by lia.
    replace (Z.min 0 (Zneg k)) with (Zneg k) by lia.
    unfold binary_round_aux, shr_fexp, shr, fexp, emin. cbn [Zdigits2 shr_record_of_loc].
    rewrite digits2_pos_iter_xO.
    replace (Z.max (Zpos (digits2_pos p) + Zpos k + Zneg k - 53) (3 - 1024 - 53) - Zneg k)
      with 0 by lia.
    cbn [shr_m loc_of_shr_record round_nearest_even Zdigits2].
    rewrite digits2_pos_iter_xO.
    replace (Z.max (Zpos (digits2_pos p) + Zpos k + Zneg k - 53) (3 - 1024 - 53) - Zneg k)
      with 0 by lia.
    cbn [shr_m].
    replace (Zneg k <=? 1024 - 53) with true by (symmetry; apply Z.leb_le; lia).
    reflexivity.
Qed.

Lemma of_int_nonzero z :
  z <> 0 -> Z.abs z < 2 ^ 53 ->
  F64.of_int z
    = S754_finite (z <? 0) (mantissa (Z.to_pos (Z.abs z))) (exponent (Z.to_pos (Z.abs z))).
Proof.
  intros Hz Hlt. unfold F64.of_int, binary_normalize.
  destruct z as [|p|p]; [contradiction| |]; cbn [Z.abs Z.to_pos Z.ltb Z.compare];
    apply binary_round_exact; exact Hlt.
Qed.

Lemma Seconds_whole n :
  Z.abs n < 2 ^ 53 -> time.Seconds (n * time.Second) = F64.of_int n.
Proof.
  intros Hn. unfold time.Seconds.
  rewrite Z.quot_mul, Z.rem_mul by (unfold time.Second; lia).
  change (F64.div (F64.of_int 0) (F64.of_int time.Second)) with F64.zero.
  destruct (Z.eq_dec n 0) as [->|Hz]; [reflexivity|].
  rewrite (of_int_nonzero n Hz Hn). reflexivity.
Qed.

Lemma abs_of_int n :
  Z.abs n < 2 ^ 53 ->
  (if F64.ltb (F64.of_int n) F64.zero then F64.opp (F64.of_int n) else F64.of_int n)
    = F64.of_int (Z.abs n).
Proof.
  intros Hn. destruct (Z.eq_dec n 0) as [->|Hz]; [reflexivity|].
  rewrite (of_int_nonzero n Hz Hn).
  rewrite (of_int_nonzero (Z.abs n)) by (rewrite ?Z.abs_idemp; lia).
  rewrite Z.abs_idemp.
  replace (Z.abs n <? 0) with false by (symmetry; apply Z.ltb_ge; lia).
  destruct (n <? 0); reflexivity.
Qed.

Lemma Sprintf_2f_of_int n :
  0 <= n < 2 ^ 53 ->
  strconv.Sprintf_2f (F64.of_int n) = FormatInt n ++ ".00".
Proof.
  intros Hn. destruct (Z.eq_dec n 0) as [->|Hz]; [reflexivity|].
  rewrite (of_int_nonzero n Hz) by lia.
  replace (n <? 0) with false by (symmetry; apply Z.ltb_ge; lia).
  rewrite Z.abs_eq by lia.
  destruct n as [|p|p]; try lia. cbn [Z.to_pos].
  assert (Hd : Zpos (digits2_pos p) <= 53) by (apply digits2_pos_53; lia).
  assert (Hh : strconv.hundredths (mantissa p) (exponent p) = Zpos p * 100).
  { unfold strconv.hundredths, mantissa, exponent.
    destruct (53 - Zpos (digits2_pos p)) as [|k|k] eqn:Ek; try lia.
    - replace (Z.min 0 (Zpos (digits2_pos p) - 53)) with 0 by lia. cbn. lia.
    - replace (Z.min 0 (Zpos (digits2_pos p) - 53)) with (Zneg k) by lia.
      cbn [Z.leb Z.compare Z.opp]. rewrite iter_xO_value.
      assert (H2 : 0 < 2 ^ Zpos k) by (apply Z.pow_pos_nonneg; lia).
      replace (Zpos p * 2 ^ Zpos k * 100) with (Zpos p * 100 * 2 ^ Zpos k) by lia.
      rewrite Z.div_mul, Z.mod_mul by lia.
      unfold strconv.round_half_even. cbn [Z.mul].
      destruct (2 ^ Zpos k) eqn:E2; try lia. reflexivity. }
  cbn [strconv.Sprintf_2f]. rewrite Hh. unfold strconv.fixed2.
  rewrite Z.div_mul, Z.mod_mul by lia. reflexivity.
Qed.

Lemma wrap64_id z : in_int64 z -> time.wrap64 z = z.
Proof.
  unfold in_int64, int64_min, int64_max, time.wrap64. intros Hz.
  rewrite Z.mod_small; lia.
Qed.

Lemma blockTimeDiff_in_range bt pvt :
  in_Time bt -> in_Time pvt -> Z.abs (bt - pvt) <= maxSeconds ->
  blockTimeDiff bt pvt = canonical (Z.abs (bt - pvt)).
Proof.
  unfold in_Time, maxSeconds. intros Hb Hp Hd.
  unfold blockTimeDiff, canonical, time.Unix. rewrite !wrap64_id by assumption.
  assert (Hs : time.Sub ((bt + time.unixToInternal) * time.Second)
                 ((pvt + time.unixToInternal) * time.Second)
               = (bt - pvt) * time.Second).
  { unfold time.Sub, time.minDuration, time.maxDuration, time.Second.
    replace ((bt + time.unixToInternal) * 1000000000
             - (pvt + time.unixToInternal) * 1000000000)
      with ((bt - pvt) * 1000000000) by lia.
    replace ((bt - pvt) * 1000000000 <? - 2 ^ 63) with false
      by (symmetry; apply Z.ltb_ge; lia).
    replace (2 ^ 63 - 1 <? (bt - pvt) * 1000000000) with false
      by (symmetry; apply Z.ltb_ge; lia).
    reflexivity. }
  rewrite Hs, Seconds_whole, abs_of_int by lia. reflexivity.
Qed.

Lemma digits2_pos_upper p : Zpos p < 2 ^ Zpos (digits2_pos p).
Proof.
  induction p as [p IH|p IH|]; cbn [digits2_pos]; [| |cbn; lia];
    rewrite Pos2Z.inj_succ, Z.pow_succ_r by lia; lia.
Qed.

Lemma digits2_pos_bounds p d :
  2 ^ (d - 1) <= Zpos p < 2 ^ d -> 0 < d -> Zpos (digits2_pos p) = d.
Proof.
  intros [Hlo Hhi] Hd.
  pose proof (digits2_pos_lower p) as Hl. pose proof (digits2_pos_upper p) as Hu.
  destruct (Z.lt_trichotomy (Zpos (digits2_pos p)) d) as [H|[H|H]]; [|exact H|].
  - assert (2 ^ Zpos (digits2_pos p) <= 2 ^ (d - 1)) by (apply Z.pow_le_mono_r; lia). lia.
  - assert (2 ^ d <= 2 ^ (Zpos (digits2_pos p) - 1)) by (apply Z.pow_le_mono_r; lia). lia.
Qed.

Lemma shiftl_iter_xO p k : Z.shiftl (Zpos p) (Zpos k) = Zpos (Pos.iter xO p k).
Proof.
  rewrite Z.shiftl_mul_pow2 by lia. now rewrite iter_xO_value.
Qed.

Lemma digits_times_100 p :
  Zpos (digits2_pos (p * 100)) = Zpos (digits2_pos p) + 6 \/
  Zpos (digits2_pos (p * 100)) = Zpos (digits2_pos p) + 7.
Proof.
  pose proof (digits2_pos_lower p) as Hl. pose proof (digits2_pos_upper p) as Hu.
  pose proof (digits2_pos_lower (p * 100)) as Hl'.
  pose proof (digits2_pos_upper (p * 100)) as Hu'.
  rewrite Pos2Z.inj_mul in Hl', Hu'.
  set (d := Zpos (digits2_pos p)) in *. set (d' := Zpos (digits2_pos (p * 100))) in *.
  assert (Hd : 0 < d) by (subst d; lia).
  assert (Hd' : 0 < d') by (subst d'; lia).
  assert (H7 : 2 ^ (d + 7) = 128 * 2 ^ d) by (rewrite Z.pow_add_r by lia; lia).
  assert (H5 : 2 ^ (d + 5) = 64 * 2 ^ (d - 1)).
  { replace (d + 5) with ((d - 1) + 6) by lia. rewrite Z.pow_add_r by lia. lia. }
  assert (Hp : 0 < 2 ^ (d - 1)) by (apply Z.pow_pos_nonneg; lia).
  destruct (Z.le_gt_cases d' (d + 5)) as [H|H].
  - assert (2 ^ d' <= 2 ^ (d + 5)) by (apply Z.pow_le_mono_r; lia). lia.
  - destruct (Z.le_gt_cases d' (d + 7)) as [H'|H']; [lia|].
    assert (2 ^ (d + 7) <= 2 ^ (d' - 1)) by (apply Z.pow_le_mono_r; lia). lia.
Qed.

Lemma div_eucl_exact a b : 0 < b -> Z.div_eucl (a * b) b = (a, 0).
Proof.
  intros Hb. pose proof (Z.div_eucl_eq (a * b) b ltac:(lia)) as He.
  pose proof (Z.mod_pos_bound (a * b) b Hb) as Hm.
  unfold Z.modulo in Hm. destruct (Z.div_eucl (a * b) b) as [q r].
  assert (a = q /\ 0 = r) as [-> <-]; [|reflexivity].
  apply (Z.div_mod_unique b); lia.
Qed.

Lemma digits2_pos_mantissa p :
  Zpos (digits2_pos p) <= 53 -> Zpos (digits2_pos (mantissa p)) = 53.
Proof.
  intros Hd. unfold mantissa.
  destruct (53 - Zpos (digits2_pos p)) as [|k|k] eqn:Ek; try lia.
  rewrite digits2_pos_iter_xO. lia.
Qed.

(** Halving an even mantissa loses nothing. *)
Lemma shr_1_iter_xO p s :
  Zpos s = 54 - Zpos (digits2_pos p) ->
  shr_1 {| shr_m := Zpos (Pos.iter xO p s); shr_r := false; shr_s := false |}
    = {| shr_m := Zpos (mantissa p); shr_r := false; shr_s := false |}.
Proof.
  intros Hs. unfold mantissa.
  destruct (Pos.succ_pred_or s) as [->|Hsucc].
  - replace (53 - Zpos (digits2_pos p)) with 0 by lia. reflexivity.
  - rewrite <- Hsucc, Pos.iter_succ.
    replace (53 - Zpos (digits2_pos p)) with (Zpos (Pos.pred s)) by lia.
    reflexivity.
Qed.

Lemma nearest_hundredths p :
  Zpos p < 2 ^ 53 ->
  strconv.nearest false (Zpos p * 100) 100
    = S754_finite false (mantissa p) (exponent p).
Proof.
  intros Hp. pose proof (digits2_pos_53 p Hp) as Hd.
  pose proof (Pos2Z.is_pos (digits2_pos p)) as Hd0.
  unfold strconv.nearest. change (Zpos p * 100) with (Zpos (p * 100)).
  cbn [Z.eqb]. unfold SFdiv_core_binary, fexp, emin, F64.prec, F64.emax.
  cbn [Zdigits2]. change (Zpos (digits2_pos 100)) with 7.
  rewrite !Z.add_0_r, Z.sub_0_r.
  change IntDef.Z.min with Z.min. change IntDef.Z.max with Z.max.
  change IntDef.Z.div_eucl with Z.div_eucl. change IntDef.Z.shiftl with Z.shiftl.
  set (d := Zpos (digits2_pos p)) in *.
  assert (Hmant : forall k, 53 - d = Zpos k -> mantissa p = Pos.iter xO p k).
  { intros k Hk. unfold mantissa. fold d. now rewrite Hk. }
  assert (Hmant0 : 53 - d = 0 -> mantissa p = p).
  { intros Hk. unfold mantissa. fold d. now rewrite Hk. }
  assert (Hexp : exponent p = d - 53) by (unfold exponent; fold d; lia).
  destruct (digits_times_100 p) as [E|E]; fold d in E; rewrite E.
  - replace (Z.min (Z.max (d + 6 - 7 - 53) (3 - 1024 - 53)) 0) with (d - 54) by lia.
    destruct (0 - (d - 54)) as [|s|s] eqn:Es; try lia.
    rewrite shiftl_iter_xO.
    replace (Zpos (Pos.iter xO (p * 100)%positive s)) with (Zpos (Pos.iter xO p s) * 100)
      by (rewrite !iter_xO_value, Pos2Z.inj_mul; lia).
    rewrite div_eucl_exact by lia.
    change (new_location 100 0) with loc_Exact.
    unfold binary_round_aux, shr_fexp, fexp, emin.
    cbn [Zdigits2 shr_record_of_loc]. rewrite digits2_pos_iter_xO. fold d.
    replace (Z.max (d + Zpos s + (d - 54) - 53) (3 - 1024 - 53) - (d - 54)) with 1 by lia.
    cbn [shr iter_pos]. rewrite shr_1_iter_xO by (fold d; lia).
    cbn [shr_m loc_of_shr_record round_nearest_even Zdigits2].
    change IntDef.Z.max with Z.max.
    rewrite digits2_pos_mantissa by (fold d; lia).
    replace (Z.max (53 + (d - 54 + 1) - 53) (3 - 1024 - 53) - (d - 54 + 1)) with 0 by lia.
    cbn [shr shr_m].
    replace (d - 54 + 1 <=? 1024 - 53) with true by (symmetry; apply Z.leb_le; lia).
    rewrite Hexp. f_equal. lia.
  - replace (Z.min (Z.max (d + 7 - 7 - 53) (3 - 1024 - 53)) 0) with (d - 53) by lia.
    assert (Hq : Z.div_eucl
                   match 0 - (d - 53) with
                   | 0 => Zpos (p * 100)
                   | Zpos _ => Z.shiftl (Zpos (p * 100)) (0 - (d - 53))
                   | Zneg _ => 0
                   end 100 = (Zpos (mantissa p), 0)).
    { destruct (0 - (d - 53)) as [|s|s] eqn:Es; try lia.
      - rewrite Hmant0 by lia. rewrite Pos2Z.inj_mul. apply div_eucl_exact. lia.
      - rewrite (Hmant s) by lia. rewrite shiftl_iter_xO.
        replace (Zpos (Pos.iter xO (p * 100)%positive s))
          with (Zpos (Pos.iter xO p s) * 100)
          by (rewrite !iter_xO_value, Pos2Z.inj_mul; lia).
        apply div_eucl_exact. lia. }
    rewrite Hq. change (new_location 100 0) with loc_Exact.
    unfold binary_round_aux, shr_fexp, fexp, emin.
    cbn [Zdigits2 shr_record_of_loc]. rewrite digits2_pos_mantissa by (fold d; lia).
    replace (Z.max (53 + (d - 53) - 53) (3 - 1024 - 53) - (d - 53)) with 0 by lia.
    cbn [shr shr_m loc_of_shr_record round_nearest_even Zdigits2].
    change IntDef.Z.max with Z.max.
    rewrite digits2_pos_mantissa by (fold d; lia).
    replace (Z.max (53 + (d - 53) - 53) (3 - 1024 - 53) - (d - 53)) with 0 by lia.
    cbn [shr shr_m].
    replace (d - 53 <=? 1024 - 53) with true by (symmetry; apply Z.leb_le; lia).
    rewrite Hexp. reflexivity.
Qed.

Lemma digits_chars d : forall acc rest,
  strconv.digits acc (chars d ++ rest) = strconv.digits (spelled acc d) rest.
Proof.
  unfold chars. induction d as [|d IH|d IH|d IH|d IH|d IH|d IH|d IH|d IH|d IH|d IH];
    intros acc rest; [reflexivity|..]; exact (IH _ rest).
Qed.

Lemma split_dot_chars d rest :
  strconv.split_dot (chars d ++ "."%char :: rest) = (chars d, Some rest).
Proof.
  unfold chars. induction d as [|d IH|d IH|d IH|d IH|d IH|d IH|d IH|d IH|d IH|d IH];
    [reflexivity|..];
    cbn [NilEmpty.string_of_uint list_ascii_of_string app strconv.split_dot];
    cbn [Ascii.eqb Bool.eqb]; cbn in IH |- *; rewrite IH; reflexivity.
Qed.

Lemma spelled_of_uint_acc d : forall acc,
  Zpos (Pos.of_uint_acc d acc) = spelled (Zpos acc) d.
Proof.
  induction d as [|d IH|d IH|d IH|d IH|d IH|d IH|d IH|d IH|d IH|d IH];
    intros acc; [reflexivity|..]; cbn [Pos.of_uint_acc spelled]; rewrite IH;
    f_equal; lia.
Qed.

Lemma spelled_of_uint d : Z.of_N (Pos.of_uint d) = spelled 0 d.
Proof.
  induction d as [|d IH|d IH|d IH|d IH|d IH|d IH|d IH|d IH|d IH|d IH];
    [reflexivity|exact IH|..]; cbn [Pos.of_uint spelled Z.of_N];
    rewrite spelled_of_uint_acc; reflexivity.
Qed.

Lemma spelled_to_uint p : spelled 0 (Pos.to_uint p) = Zpos p.
Proof. now rewrite <- spelled_of_uint, DecimalPos.Unsigned.of_to. Qed.

Lemma list_ascii_of_string_app s t :
  list_ascii_of_string (s ++ t)
    = (list_ascii_of_string s ++ list_ascii_of_string t)%list.
Proof. induction s as [|c s IH]; [reflexivity|]. cbn. now rewrite IH. Qed.

(** A string that begins with a digit is read as an unsigned decimal. *)
Lemma ParseFloat_unsigned s c rest :
  list_ascii_of_string s = c :: rest -> Kitchen.isDigit c = true ->
  strconv.ParseFloat s = strconv.unsigned false (c :: rest).
Proof.
  intros Hs Hc. unfold strconv.ParseFloat.
  destruct (String.eqb_spec s "NaN") as [->|_];
    [injection Hs as <- _; discriminate Hc|].
  destruct (String.eqb_spec s "+Inf") as [->|_];
    [injection Hs as <- _; discriminate Hc|].
  destruct (String.eqb_spec s "Inf") as [->|_];
    [injection Hs as <- _; discriminate Hc|].
  destruct (String.eqb_spec s "-Inf") as [->|_];
    [injection Hs as <- _; discriminate Hc|].
  cbn [orb]. rewrite Hs.
  destruct (Ascii.eqb_spec c "-") as [->|_]; [discriminate Hc|].
  destruct (Ascii.eqb_spec c "+") as [->|_]; [discriminate Hc|].
  reflexivity.
Qed.

Lemma chars_head d :
  d <> Decimal.Nil ->
  exists c rest, chars d = c :: rest /\ Kitchen.isDigit c = true.
Proof.
  unfold chars. destruct d; [contradiction|..]; intros _;
    cbn [NilEmpty.string_of_uint list_ascii_of_string];
    eexists; eexists; split; reflexivity.
Qed.

Lemma unsigned_fixed2 d c rest :
  chars d = c :: rest ->
  strconv.unsigned false (chars d ++ list_ascii_of_string ".00")
    = Some (strconv.nearest false (spelled 0 d * 100) 100).
Proof.
  intros Hd. unfold strconv.unsigned.
  change (list_ascii_of_string ".00") with ("."%char :: ["0"; "0"]%char).
  rewrite split_dot_chars.
  assert (Hne : (chars d ++ ["0"; "0"]%char)%list <> [])
    by (rewrite Hd; discriminate).
  assert (Hne' : (chars d ++ "."%char :: ["0"; "0"]%char)%list <> [])
    by (rewrite Hd; discriminate).
  destruct (chars d ++ "."%char :: ["0"; "0"]%char)%list eqn:E1; [contradiction|].
  destruct (chars d ++ ["0"; "0"]%char)%list eqn:E2; [contradiction|].
  rewrite <- E2, digits_chars. cbn [strconv.digits List.length Z.of_nat].
  change (Kitchen.isDigit "0") with true. change (Kitchen.digit "0") with 0.
  cbv beta iota. change (10 ^ Z.of_nat 2) with 100.
  do 2 f_equal. lia.
Qed.

Lemma ParseFloat_whole p :
  strconv.ParseFloat (FormatInt (Zpos p) ++ ".00")
    = Some (strconv.nearest false (Zpos p * 100) 100).
Proof.
  unfold FormatInt. cbn [Z.to_int NilZero.string_of_int].
  assert (Hnil : Pos.to_uint p <> Decimal.Nil).
  { intros H. pose proof (spelled_to_uint p) as Hs. rewrite H in Hs. discriminate Hs. }
  assert (Hstr : NilZero.string_of_uint (Pos.to_uint p)
                 = NilEmpty.string_of_uint (Pos.to_uint p))
    by (destruct (Pos.to_uint p); [contradiction|..]; reflexivity).
  rewrite Hstr.
  destruct (chars_head _ Hnil) as (c & rest & Hc & Hdig).
  rewrite (ParseFloat_unsigned _ c (rest ++ list_ascii_of_string ".00")%list).
  - change (c :: rest ++ list_ascii_of_string ".00")%list
      with ((c :: rest) ++ list_ascii_of_string ".00")%list.
    rewrite <- Hc, (unsigned_fixed2 _ c rest Hc), spelled_to_uint. reflexivity.
  - rewrite list_ascii_of_string_app. fold (chars (Pos.to_uint p)). now rewrite Hc.
  - exact Hdig.
Qed.

(** Printing a whole number of seconds and parsing it back gives the
    float64 of that number. *)
Lemma canonical_whole n :
  0 <= n < 2 ^ 53 -> canonical n = (F64.of_int n, FormatInt n ++ ".00").
Proof.
  intros Hn. unfold canonical. rewrite Sprintf_2f_of_int by exact Hn.
  destruct n as [|p|p]; [reflexivity| |lia].
  rewrite ParseFloat_whole, nearest_hundredths by lia.
  rewrite (of_int_nonzero (Zpos p)) by (cbn [Z.abs]; lia).
  reflexivity.
Qed.

(** C9, as stated, fails: block times more than 9223372036 seconds apart
    do not fit a [Duration], which stops at its largest value; for
    10000000000 and 0 the result is "9223372036.85". *)
Lemma blockTimeDiff_saturates :
  ~ (forall bt pvt, in_int64 bt -> in_int64 pvt ->
       blockTimeDiff bt pvt = canonical (Z.abs (bt - pvt))).
Proof.
  intros H.
  assert (Hs : snd (blockTimeDiff 10000000000 0)
               = snd (canonical (Z.abs (10000000000 - 0)))).
  { f_equal. apply H; vm_compute; split; discriminate. }
  vm_compute in Hs. discriminate Hs.
Qed.

Lemma blockTimeDiff_saturated_value :
  snd (blockTimeDiff 10000000000 0) = "9223372036.85" /\
  snd (blockTimeDiff 0 10000000000) = "9223372036.85".
Proof. split; vm_compute; reflexivity. Qed.

(** C9, amended.  For block times that [time.Unix] represents and that
    lie at most 9223372036 seconds apart, the result does not depend on
    the order of the arguments; the number is [|bt - pvt|] as a float64,
    so it is not negative; the string is [|bt - pvt|] with two decimals;
    and the number is that string parsed back. *)
Theorem blockTimeDiff_symmetric_in_range :
  forall bt pvt,
    in_Time bt -> in_Time pvt -> Z.abs (bt - pvt) <= maxSeconds ->
    blockTimeDiff bt pvt = blockTimeDiff pvt bt /\
    blockTimeDiff bt pvt
      = (F64.of_int (Z.abs (bt - pvt)), FormatInt (Z.abs (bt - pvt)) ++ ".00") /\
    F64.ltb (fst (blockTimeDiff bt pvt)) F64.zero = false /\
    strconv.ParseFloat (snd (blockTimeDiff bt pvt))
      = Some (fst (blockTimeDiff bt pvt)).
Proof.
  intros bt pvt Hb Hp Hd.
  assert (Hd' : Z.abs (pvt - bt) <= maxSeconds)
    by (rewrite <- Z.abs_opp; now replace (- (pvt - bt)) with (bt - pvt) by lia).
  rewrite (blockTimeDiff_in_range bt pvt Hb Hp Hd).
  rewrite (blockTimeDiff_in_range pvt bt Hp Hb Hd').
  replace (Z.abs (pvt - bt)) with (Z.abs (bt - pvt))
    by (rewrite <- Z.abs_opp; f_equal; lia).
  assert (Hn : 0 <= Z.abs (bt - pvt) < 2 ^ 53) by (unfold maxSeconds in Hd; lia).
  rewrite (canonical_whole _ Hn). cbn [fst snd].
  repeat split.
  - destruct (Z.abs (bt - pvt)) as [|n|n] eqn:E; [reflexivity| |lia].
    rewrite (of_int_nonzero (Zpos n)) by (cbn [Z.abs]; lia). reflexivity.
  - destruct (Z.abs (bt - pvt)) as [|n|n] eqn:E; [reflexivity| |lia].
    rewrite ParseFloat_whole, nearest_hundredths by lia.
    rewrite (of_int_nonzero (Zpos n)) by (cbn [Z.abs]; lia). reflexivity.
Qed.

Lemma blockTimeDiff_symmetric_in_range_witness :
  blockTimeDiff 1700000005 1700000000 = blockTimeDiff 1700000000 1700000005 /\
  blockTimeDiff 1700000005 1700000000 = (F64.of_int 5, "5.00") /\
  F64.ltb (fst (blockTimeDiff 1700000005 1700000000)) F64.zero = false /\
  strconv.ParseFloat (snd (blockTimeDiff 1700000005 1700000000))
    = Some (fst (blockTimeDiff 1700000005 1700000000)).
Proof.
  refine (blockTimeDiff_symmetric_in_range 1700000005 1700000000 _ _ _).
  - vm_compute. split; discriminate.
  - vm_compute. split; discriminate.
  - vm_compute. discriminate.
Defined.

(** On these inputs the number returned is the float64 5. *)
Lemma blockTimeDiff_example :
  blockTimeDiff 1700000000 1700000005 = (F64.of_int 5, "5.00").
Proof. vm_compute. reflexivity. Qed.

(** ** The network averages *)

(** The running sums and counts take in the pairs whose two credits are
    both nonzero, and only those. *)
Lemma accumulate_qualifying pairs : forall acc,
  fold_left (fun a cp => accumulate a (fst cp) (snd cp)) pairs acc
    = fold_left (fun a cp => accumulate a (fst cp) (snd cp))
        (filter qualifies pairs) acc /\
  currentCreditsCount
      (fold_left (fun a cp => accumulate a (fst cp) (snd cp)) pairs acc)
    = currentCreditsCount acc + Z.of_nat (List.length (filter qualifies pairs)) /\
  runningCurrentCredits
      (fold_left (fun a cp => accumulate a (fst cp) (snd cp)) pairs acc)
    = fold_left F64.add (map fst (filter qualifies pairs)) (runningCurrentCredits acc) /\
  runningPreviousCredits
      (fold_left (fun a cp => accumulate a (fst cp) (snd cp)) pairs acc)
    = fold_left F64.add (map snd (filter qualifies pairs)) (runningPreviousCredits acc) /\
  previousCreditsCount
      (fold_left (fun a cp => accumulate a (fst cp) (snd cp)) pairs acc)
    = previousCreditsCount acc + Z.of_nat (List.length (filter qualifies pairs)).
Proof.
  induction pairs as [|cp pairs IH]; intros acc.
  - cbn. repeat split; lia.
  - assert (Hstep : accumulate acc (fst cp) (snd cp)
                    = if qualifies cp
                      then {| runningCurrentCredits :=
                                F64.add (runningCurrentCredits acc) (fst cp);
                              runningPreviousCredits :=
                                F64.add (runningPreviousCredits acc) (snd cp);
                              currentCreditsCount := currentCreditsCount acc + 1;
                              previousCreditsCount := previousCreditsCount acc + 1 |}
                      else acc) by reflexivity.
    cbn [fold_left filter]. destruct (qualifies cp); [|rewrite Hstep; apply IH].
    cbn [fold_left map List.length]. rewrite Hstep, Nat2Z.inj_succ.
    match goal with |- context [fold_left _ pairs ?a] =>
      destruct (IH a) as (H1 & H2 & H3 & H4 & H5) end.
    cbn [currentCreditsCount previousCreditsCount runningCurrentCredits
         runningPreviousCredits] in *.
    repeat split; try assumption; lia.
Qed.

(** Two passes from a cold cache: an empty current set, and a validator
    whose credit history has no entry for the cached epoch 101.  Both emit
    NaN for each average. *)
Lemma network_average_nan_examples :
  (exists w',
     mustEmitMetrics (steadyEnv noAccounts "true" None) sampleConfig
       noAccounts initial = Done tt w' /\
     networkAverages (trace w')
       = [(S754_nan, ["current"]); (S754_nan, ["previous"])]) /\
  (exists w',
     mustEmitMetrics (steadyEnv noAccounts "true" None) sampleConfig
       {| Current := [account "NodeB" "VoteB" 900 [[100; 50; 40]]];
          Delinquent := [] |} initial = Done tt w' /\
     networkAverages (trace w')
       = [(S754_nan, ["current"]); (S754_nan, ["previous"])]).
Proof.
  split; eexists; (split; [vm_compute; reflexivity|]); vm_compute; reflexivity.
Qed.

(** With one qualifying validator the averages are its own credits. *)
Lemma network_average_one_validator :
  exists w',
    mustEmitMetrics (steadyEnv noAccounts "true" None) sampleConfig
      {| Current := [account "NodeB" "VoteB" 900 [[101; 60; 50]];
                     account "NodeC" "VoteC" 901 [[100; 50; 40]]];
         Delinquent := [] |} initial = Done tt w' /\
    networkAverages (trace w')
      = [(F64.of_int 60, ["current"]); (F64.of_int 50, ["previous"])].
Proof.
  eexists. split; [vm_compute; reflexivity|]. vm_compute. reflexivity.
Qed.

(** ** The cached entry during a pass *)

Section Keeps.

Lemma keeps_ret {A} (a : A) : keeps (ret a).
Proof. intros w b w' H. injection H as <- <-. auto. Qed.

Lemma keeps_emit e : keeps (emit e).
Proof. intros w b w' H. injection H as <- <-. cbn. auto. Qed.

Lemma keeps_next : keeps next.
Proof. intros w b w' H. injection H as <- <-. cbn. auto. Qed.

Lemma keeps_bind {A B} (m : M A) (k : A -> M B) :
  keeps m -> (forall a, keeps (k a)) -> keeps (bind m k).
Proof.
  intros Hm Hk w b w' H. apply bind_Done in H as (a & w1 & H1 & H2).
  destruct (Hm _ _ _ H1) as (? & ? & ?), (Hk _ _ _ _ H2) as (? & ? & ?).
  repeat split; try congruence. lia.
Qed.

Lemma keeps_when b m : keeps m -> keeps (when b m).
Proof. destruct b; [trivial|intros _; apply keeps_ret]. Qed.

Variable env : Env.
Variable config : Config.

Lemma keeps_alerter_Send c msg : keeps (alerter_Send env c msg).
Proof.
  unfold alerter_Send. apply keeps_bind; [apply keeps_next|intros i].
  apply keeps_bind; [apply keeps_emit|intros; apply keeps_ret].
Qed.

Lemma keeps_sendAll msg : keeps (sendAll env msg).
Proof.
  unfold sendAll.
  do 3 (apply keeps_bind; [apply keeps_alerter_Send|intros ?]).
  do 2 (apply keeps_bind; [apply keeps_when, keeps_emit|intros _]).
  apply keeps_when, keeps_emit.
Qed.

Lemma keeps_alertLoop msg cur l : forall count, keeps (alertLoop env msg cur l count).
Proof.
  induction l as [|slot l IH]; intros count; [apply keeps_ret|].
  cbn [alertLoop]. destruct (String.eqb cur slot); [|apply IH].
  apply keeps_bind.
  - unfold querier_AlertStatusCountFromPrometheus.
    apply keeps_bind; [apply keeps_next|intros i].
    apply keeps_bind; [apply keeps_emit|intros; apply keeps_ret].
  - intros r. destruct (String.eqb (fst r) "false").
    + apply keeps_bind; [apply keeps_sendAll|intros _].
      apply keeps_bind; [apply keeps_emit|intros _; apply IH].
    + apply keeps_bind; [apply keeps_emit|intros _; apply keeps_ret].
Qed.

Lemma keeps_AlertValidatorStatus msg : keeps (AlertValidatorStatus env config msg).
Proof.
  unfold AlertValidatorStatus, timeNow.
  apply keeps_bind;
    [apply keeps_bind; [apply keeps_next|intros; apply keeps_ret]|intros now].
  apply keeps_bind; [apply keeps_emit|intros _].
  apply keeps_bind; [apply keeps_alertLoop|intros; apply keeps_ret].
Qed.

Lemma keeps_emitTracked net vote c p : keeps (emitTracked env config net vote c p).
Proof.
  unfold emitTracked. do 4 (apply keeps_bind; [apply keeps_emit|intros _]).
  apply keeps_bind.
  { destruct (negb (EpochVoteAccount vote) && (ActivatedStake vote <=? 0));
      (apply keeps_bind; [apply keeps_AlertValidatorStatus|intros _]);
      apply keeps_emit. }
  intros _. do 4 (apply keeps_bind; [apply keeps_emit|intros _]).
  apply keeps_emit.
Qed.

Lemma keeps_forM {A} (f : A -> M unit) l :
  (forall x, keeps (f x)) -> keeps (forM l f).
Proof.
  intros Hf. induction l as [|x l IH]; [apply keeps_ret|].
  cbn [forM]. apply keeps_bind; [apply Hf|intros _; exact IH].
Qed.

Lemma live_keeps info w w' :
  live env info w ->
  cachedEpochInfo w' = cachedEpochInfo w /\
  cachedEpochTime w' = cachedEpochTime w /\
  (tick w <= tick w')%nat ->
  live env info w'.
Proof.
  intros [Hc Hwin] (Hi & Ht & Hk). split; [congruence|].
  intros i Hle. rewrite Ht. apply Hwin. lia.
Qed.

(** With a live entry the lookup of a validator's credits reads the
    cached epoch and leaves the entry live. *)
Lemma calcualteEpochVoteCredits_live info credits w :
  live env info w ->
  exists w',
    calcualteEpochVoteCredits env credits w
      = Done (F64.of_int (fst (scanCredits (Epoch info) credits)),
              F64.of_int (snd (scanCredits (Epoch info) credits))) w' /\
    live env info w'.
Proof.
  intros Hlive. pose proof Hlive as [Hc Hwin].
  rewrite calcualteEpochVoteCredits_run,
    (getCachedEpochInfo_hit env w info Hc (Hwin _ (Nat.le_refl _))).
  eexists. split; [reflexivity|].
  apply (live_keeps info w); [exact Hlive|cbn; auto].
Qed.

Lemma currentLoop_live info net l : forall acc w acc' w',
  live env info w ->
  currentLoop env config net l acc w = Done acc' w' ->
  acc' = fold_left addPair (creditsOf (Epoch info) l) acc /\ live env info w'.
Proof.
  induction l as [|vote l IH]; intros acc w acc' w' Hlive Hrun.
  - injection Hrun as <- <-. auto.
  - cbn [currentLoop] in Hrun.
    destruct (calcualteEpochVoteCredits_live info (EpochCredits vote) w Hlive)
      as (w1 & Hc & Hlive1).
    unfold bind at 1 in Hrun. rewrite Hc in Hrun.
    apply bind_Done in Hrun as ([] & w2 & Hw & Hrest).
    assert (Hlive2 : live env info w2).
    { apply (live_keeps info w1); [exact Hlive1|].
      eapply (keeps_when _ _ (keeps_emitTracked _ _ _ _)), Hw. }
    destruct (IH _ _ _ _ Hlive2 Hrest) as [-> Hlive'].
    split; [reflexivity|exact Hlive'].
Qed.

End Keeps.

Section Averages.

Variable env : Env.
Variable config : Config.

Lemma averages_emitTracked net vote c p :
  yields averageOf (emitTracked env config net vote c p) [].
Proof.
  unfold emitTracked. do 4 quiet_emit.
  apply yields_quiet_bind.
  { destruct (negb (EpochVoteAccount vote) && (ActivatedStake vote <=? 0));
      (apply yields_quiet_bind;
         [apply yields_AlertValidatorStatus; intros; reflexivity|intros _]);
      exact (yields_emit _ _). }
  intros _. do 4 quiet_emit. exact (yields_emit _ _).
Qed.

Lemma averages_currentLoop net l :
  forall acc, yields averageOf (currentLoop env config net l acc) [].
Proof.
  induction l as [|vote l IH]; intros acc; [apply yields_ret|].
  cbn [currentLoop].
  apply yields_quiet_bind;
    [apply yields_calcualteEpochVoteCredits; intros; reflexivity|intros cp].
  apply yields_quiet_bind; [|intros _; apply IH].
  destruct (tracked config vote); [apply averages_emitTracked|apply yields_ret].
Qed.

Lemma averages_emitDelinquent vote : yields averageOf (emitDelinquent env vote) [].
Proof.
  unfold emitDelinquent. do 2 quiet_emit.
  do 2 (apply yields_quiet_bind;
          [apply yields_alerter_Send; intros; reflexivity|intros ?];
        apply yields_quiet_bind;
          [apply yields_when_log; intros; reflexivity|intros _]).
  apply yields_quiet_bind;
    [apply yields_alerter_Send; intros; reflexivity|intros ?].
  apply yields_when_log; intros; reflexivity.
Qed.

Lemma averages_delinquentLoop l :
  yields averageOf
    (forM l (fun vote => when (tracked config vote) (emitDelinquent env vote))) [].
Proof.
  apply yields_forM_quiet. intros vote.
  destruct (tracked config vote); [apply averages_emitDelinquent|apply yields_ret].
Qed.

Lemma averages_lastVoteLoop l :
  yields averageOf
    (forM l (fun account =>
       when (tracked config account)
         (ch_metric validatorLastVote (F64.of_int (LastVote account))
            [VotePubkey account; NodePubkey account] ;;
          ch_metric validatorRootSlot (F64.of_int (RootSlot account))
            [VotePubkey account; NodePubkey account]))) [].
Proof.
  apply yields_forM_quiet. intros account.
  destruct (tracked config account); [|apply yields_ret].
  cbn [when]. quiet_emit. exact (yields_emit _ _).
Qed.

(** The two averages of a pass that starts with a live cache entry: the
    sums of the credits of the qualifying validators of the current set
    divided by their number. *)
Lemma mustEmitMetrics_averages info response w w' :
  live env info w ->
  mustEmitMetrics env config response w = Done tt w' ->
  let q := filter qualifies (creditsOf (Epoch info) (Current response)) in
  networkAverages (trace w')
    = (networkAverages (trace w)
       ++ [(F64.div (fold_left F64.add (map fst q) F64.zero)
              (F64.of_int (Z.of_nat (List.length q))), ["current"]);
           (F64.div (fold_left F64.add (map snd q) F64.zero)
              (F64.of_int (Z.of_nat (List.length q))), ["previous"])])%list.
Proof.
  intros Hlive Hrun q. unfold mustEmitMetrics in Hrun.
  apply bind_Done in Hrun as ([] & w1 & H1 & Hrun).
  apply bind_Done in Hrun as ([] & w2 & H2 & Hrun).
  apply bind_Done in Hrun as ([] & w3 & H3 & Hrun).
  apply bind_Done in Hrun as (r & w4 & H4 & Hrun).
  apply bind_Done in Hrun as ([] & w5 & H5 & Hrun).
  apply bind_Done in Hrun as (acc & w6 & H6 & Hrun).
  apply bind_Done in Hrun as ([] & w7 & H7 & Hrun).
  apply bind_Done in Hrun as ([] & w8 & H8 & Hrun).
  assert (Hl3 : live env info w3).
  { apply (live_keeps env info w2); [|eapply keeps_forM, H3].
    - apply (live_keeps env info w1); [|eapply keeps_emit, H2].
      apply (live_keeps env info w); [exact Hlive|eapply keeps_emit, H1].
    - intros x. apply keeps_when.
      apply keeps_bind; [apply keeps_emit|intros _; apply keeps_emit]. }
  pose proof Hl3 as [Hc3 Hwin3].
  rewrite (getCachedEpochInfo_hit env w3 info Hc3 (Hwin3 _ (Nat.le_refl _))) in H4.
  injection H4 as <- <-. cbn [snd isErr when] in H5. injection H5 as <-.
  match type of H6 with currentLoop _ _ _ _ _ ?w0 = _ =>
    assert (Hl4 : live env info w0)
      by (apply (live_keeps env info w3); [exact Hl3|cbn; auto]) end.
  destruct (currentLoop_live env config info _ _ _ _ _ _ Hl4 H6) as [Hacc _].
  unfold networkAverages.
  rewrite (averages_delinquentLoop _ _ _ _ Hrun), app_nil_r.
  rewrite (yields_emit averageOf _ _ _ _ H8), (yields_emit averageOf _ _ _ _ H7).
  rewrite (averages_currentLoop _ _ _ _ _ _ H6), app_nil_r. cbn [trace].
  rewrite (averages_lastVoteLoop _ _ _ _ H3).
  rewrite (yields_emit averageOf _ _ _ _ H2), (yields_emit averageOf _ _ _ _ H1).
  cbn [averageOf]. rewrite !app_nil_r, <- app_assoc. cbn [app].
  destruct (accumulate_qualifying (creditsOf (Epoch info) (Current response)) noCredits)
    as (_ & Hn & Hsc & Hsp & Hn').
  fold addPair in Hn, Hsc, Hsp, Hn'. rewrite <- Hacc in Hn, Hsc, Hsp, Hn'.
  rewrite Hn, Hsc, Hsp, Hn'. reflexivity.
Qed.

End Averages.

(** C1.  In a pass that starts with a live cache entry and returns, when
    no validator of the current set has both credits nonzero the two
    counts are 0 and each average is 0/0: the pass emits NaN for the
    current and for the previous network average. *)
Theorem network_average_nan_when_none_qualifies :
  forall env config info response w w',
    live env info w ->
    mustEmitMetrics env config response w = Done tt w' ->
    filter qualifies (creditsOf (Epoch info) (Current response)) = [] ->
    networkAverages (trace w')
      = (networkAverages (trace w)
         ++ [(S754_nan, ["current"]); (S754_nan, ["previous"])])%list.
Proof.
  intros env config info response w w' Hlive Hrun Hq.
  rewrite (mustEmitMetrics_averages env config info response w w' Hlive Hrun), Hq.
  reflexivity.
Qed.

Lemma network_average_nan_when_none_qualifies_witness :
  exists w',
    mustEmitMetrics (steadyEnv noAccounts "true" None) sampleConfig
      {| Current := [account "NodeB" "VoteB" 900 [[100; 50; 40]]];
         Delinquent := [] |} warmWorld = Done tt w' /\
    networkAverages (trace w')
      = [(S754_nan, ["current"]); (S754_nan, ["previous"])].
Proof.
  eexists. split; [vm_compute; reflexivity|].
  refine (network_average_nan_when_none_qualifies
            (steadyEnv noAccounts "true" None) sampleConfig info101
            {| Current := [account "NodeB" "VoteB" 900 [[100; 50; 40]]];
               Delinquent := [] |} warmWorld _ _ _ _).
  - split; [reflexivity|]. intros i _. vm_compute. reflexivity.
  - vm_compute. reflexivity.
  - reflexivity.
Defined.

(** ** More on the epoch-info cache *)

Lemma Sub_ge_ttl t u : ttl <= t - u -> ttl <= time.Sub t u.
Proof.
  intros H. destruct (Z.ltb_spec (time.Sub t u) ttl) as [Hlt|Hge]; [|exact Hge].
  apply Z.ltb_lt in Hlt. rewrite Sub_lt_ttl in Hlt. apply Z.ltb_lt in Hlt. lia.
Qed.

(** An entry that is 30 seconds old, or older, is not served: the lookup
    queries upstream once, and on success the reply replaces the value
    and the clock reading taken after the query replaces the timestamp; a
    lookup that follows within 30 seconds of that reading is served the
    new value without a query. *)
Theorem cache_entry_refreshed_at_thirty_seconds :
  forall env w old,
    cachedEpochInfo w = Some old ->
    30 * time.Second <= clock env (tick w) - cachedEpochTime w ->
    snd (GetEpochInfo env (S (tick w))) = None ->
    exists w1,
      getCachedEpochInfo env w
        = Done (Some (fst (GetEpochInfo env (S (tick w)))), None) w1 /\
      cachedEpochInfo w1 = Some (fst (GetEpochInfo env (S (tick w)))) /\
      cachedEpochTime w1 = clock env (S (S (tick w))) /\
      epochQueries (trace w1) = S (epochQueries (trace w)) /\
      (clock env (tick w1) - cachedEpochTime w1 < 30 * time.Second ->
       exists w2,
         getCachedEpochInfo env w1
           = Done (Some (fst (GetEpochInfo env (S (tick w)))), None) w2 /\
         epochQueries (trace w2) = epochQueries (trace w1)).
Proof.
  intros env w old Hc Hage Hok.
  assert (Hx : expired env w).
  { unfold expired. rewrite Hc. apply Sub_ge_ttl. exact Hage. }
  pose proof (getCachedEpochInfo_miss env w Hx) as Hrun.
  unfold refreshTick in Hrun. rewrite Hc in Hrun. rewrite Hok in Hrun.
  eexists. split; [exact Hrun|]. split; [reflexivity|]. split; [reflexivity|].
  split.
  - cbn [trace]. rewrite epochQueries_app. cbn [epochQueries]. lia.
  - intros Hlive. eexists.
    split; [apply getCachedEpochInfo_hit; [reflexivity|exact Hlive]|].
    reflexivity.
Qed.

(** A failed refresh is not remembered: with no entry in the cache and
    the upstream query failing every time, each of [n] lookups in a row
    queries upstream again and returns an error. *)
Theorem cache_failures_are_not_cached :
  forall env n w,
    cachedEpochInfo w = None ->
    (forall i, snd (GetEpochInfo env i) <> None) ->
    exists rs w',
      lookups env n w = Done rs w' /\
      List.length rs = n /\
      Forall (fun r => fst r = None /\ snd r <> None) rs /\
      epochQueries (trace w') = (epochQueries (trace w) + n)%nat /\
      cachedEpochInfo w' = None.
Proof.
  intros env n. induction n as [|n IH]; intros w Hc Hfail.
  - exists [], w. repeat split; auto.
  - assert (Hx : expired env w) by (unfold expired; now rewrite Hc).
    pose proof (getCachedEpochInfo_miss env w Hx) as Hrun.
    destruct (snd (GetEpochInfo env (refreshTick w))) as [err|] eqn:E;
      [|now apply Hfail in E].
    cbn [lookups]. unfold bind at 1. rewrite Hrun. cbv beta iota. unfold bind, ret.
    match goal with |- context [lookups env n ?w1] =>
      destruct (IH w1) as (rs & w' & Hl & Hlen & Hall & Hq & Hc') end;
      [exact Hc|exact Hfail|].
    rewrite Hl. eexists; eexists. split; [reflexivity|].
    cbn [List.length trace] in *. rewrite epochQueries_app in Hq. cbn in Hq.
    repeat split; try assumption; try lia.
    constructor; [|exact Hall]. cbn. split; [reflexivity|discriminate].
Qed.

(** ** More on the epoch-credit scan *)

(** Inner slices with fewer than three elements and slices for another
    epoch are passed over: alone they give (0, 0), and in front of a
    slice for the epoch they leave its second and third element as the
    result, whatever follows in that slice or after it. *)
Theorem scanCredits_skips_short_and_other_epochs :
  forall epoch pre,
    Forall (fun c => (List.length c < 3)%nat \/ hd 0 c <> epoch) pre ->
    scanCredits epoch pre = (0, 0) /\
    forall c1 c2 more post,
      scanCredits epoch (pre ++ (epoch :: c1 :: c2 :: more) :: post) = (c1, c2).
Proof.
  intros epoch pre Hpre. induction Hpre as [|c pre Hc _ [IH0 IH]].
  - split; [reflexivity|]. intros c1 c2 more post. cbn. now rewrite Z.eqb_refl.
  - assert (Hskip : forall rest, scanCredits epoch (c :: rest) = scanCredits epoch rest).
    { intros rest. cbn [scanCredits]. destruct c as [|c0 [|c1 [|c2 c]]]; try reflexivity.
      destruct Hc as [Hc|Hc]; [cbn in Hc; lia|].
      cbn [hd] in Hc. apply Z.eqb_neq in Hc. now rewrite Hc. }
    split; [now rewrite Hskip|]. intros c1 c2 more post.
    rewrite <- app_comm_cons, Hskip. apply IH.
Qed.

(** ** More on the status alert *)

Lemma alertLoop_no_match env msg cur l : forall count w,
  filter (String.eqb cur) l = [] ->
  alertLoop env msg cur l count w = Done count w.
Proof.
  induction l as [|slot l IH]; intros count w H; [reflexivity|].
  cbn [alertLoop filter] in *. destruct (String.eqb cur slot); [discriminate H|].
  now apply IH.
Qed.

(** When no configured slot equals the current minute the evaluation
    reads the clock, writes its log line and nothing else: no dedup query,
    no alert, no alert-count metric. *)
Theorem alert_tick_without_matching_slot_is_silent :
  forall env config msg w,
    matchingSlots config (currentMinute env w) = [] ->
    AlertValidatorStatus env config msg w = Done tt (alertStart w).
Proof.
  intros env config msg w H. rewrite AlertValidatorStatus_start.
  now rewrite alertLoop_no_match.
Qed.

Lemma cache_entry_refreshed_at_thirty_seconds_witness :
  exists w1,
    getCachedEpochInfo (steadyEnv noAccounts "false" None)
      {| cachedEpochInfo := Some {| Epoch := 100; AbsoluteSlot := 1 |};
         cachedEpochTime := tenAM - 30 * time.Second; tick := 0; trace := [] |}
    = Done (Some info101, None) w1 /\
    cachedEpochTime w1 = tenAM.
Proof.
  destruct (cache_entry_refreshed_at_thirty_seconds
              (steadyEnv noAccounts "false" None)
              {| cachedEpochInfo := Some {| Epoch := 100; AbsoluteSlot := 1 |};
                 cachedEpochTime := tenAM - 30 * time.Second;
                 tick := 0; trace := [] |}
              {| Epoch := 100; AbsoluteSlot := 1 |})
    as (w1 & Hrun & _ & Ht & _).
  - reflexivity.
  - vm_compute. discriminate.
  - reflexivity.
  - exists w1. split; [exact Hrun|exact Ht].
Defined.

Lemma cache_failures_are_not_cached_witness :
  exists rs w',
    lookups (epochDownEnv noAccounts) 3 initial = Done rs w' /\
    epochQueries (trace w') = 3%nat.
Proof.
  destruct (cache_failures_are_not_cached (epochDownEnv noAccounts) 3 initial)
    as (rs & w' & Hrun & _ & _ & Hq & _).
  - reflexivity.
  - intros i. discriminate.
  - exists rs, w'. split; [exact Hrun|exact Hq].
Defined.

Lemma scanCredits_skips_short_and_other_epochs_witness :
  scanCredits 101 [[101; 9]; [100; 50; 40]; [101; 60; 50; 7]; [101; 1; 2]]
    = (60, 50).
Proof.
  refine (proj2 (scanCredits_skips_short_and_other_epochs 101
                   [[101; 9]; [100; 50; 40]] _) 60 50 [7] [[101; 1; 2]]).
  repeat constructor; cbn; lia.
Defined.

Lemma alert_tick_without_matching_slot_is_silent_witness :
  AlertValidatorStatus (steadyEnv noAccounts "false" None)
    {| PubKey := "NodeA"; AlertTimings := ["10:05AM"; "9:59AM"] |}
    "Solana validator is VOTING" initial
  = Done tt (alertStart initial).
Proof.
  apply (alert_tick_without_matching_slot_is_silent
           (steadyEnv noAccounts "false" None)
           {| PubKey := "NodeA"; AlertTimings := ["10:05AM"; "9:59AM"] |}).
  reflexivity.
Defined.

(** ** Passes that return and passes that panic *)

Lemma bind_run {A B} (m : M A) (k : A -> M B) w a w1 :
  m w = Done a w1 -> bind m k w = k a w1.
Proof. intros H. unfold bind. now rewrite H. Qed.

Lemma returns_ret {A} (a : A) : returns (ret a).
Proof. intros w. now exists a, w. Qed.

Lemma returns_emit e : returns (emit e).
Proof. intros w. eexists; eexists; reflexivity. Qed.


Lemma returns_bind {A B} (m : M A) (k : A -> M B) :
  returns m -> (forall a, returns (k a)) -> returns (bind m k).
Proof.
  intros Hm Hk w. destruct (Hm w) as (a & w1 & H1).
  destruct (Hk a w1) as (b & w2 & H2). exists b, w2.
  now rewrite (bind_run _ _ _ _ _ H1).
Qed.

Lemma returns_when b m : returns m -> returns (when b m).
Proof. destruct b; [trivial|intros _; apply returns_ret]. Qed.

Lemma returns_forM {A} (f : A -> M unit) l :
  (forall x, returns (f x)) -> returns (forM l f).
Proof.
  intros Hf. induction l as [|x l IH]; [apply returns_ret|].
  cbn [forM]. apply returns_bind; [apply Hf|intros _; exact IH].
Qed.

Section Returns.

Variable env : Env.
Variable config : Config.

Lemma returns_getCachedEpochInfo : returns (getCachedEpochInfo env).
Proof.
  intros w. destruct (getCachedEpochInfo_total env w) as (r & w' & H & _).
  now exists r, w'.
Qed.







Lemma returns_lastVoteLoop l :
  returns
    (forM l (fun account =>
       when (tracked config account)
         (ch_metric validatorLastVote (F64.of_int (LastVote account))
            [VotePubkey account; NodePubkey account] ;;
          ch_metric validatorRootSlot (F64.of_int (RootSlot account))
            [VotePubkey account; NodePubkey account]))).
Proof.
  apply returns_forM. intros account. apply returns_when.
  apply returns_bind; [apply returns_emit|intros _; apply returns_emit].
Qed.

Lemma keeps_lastVoteLoop l :
  keeps
    (forM l (fun account =>
       when (tracked config account)
         (ch_metric validatorLastVote (F64.of_int (LastVote account))
            [VotePubkey account; NodePubkey account] ;;
          ch_metric validatorRootSlot (F64.of_int (RootSlot account))
            [VotePubkey account; NodePubkey account]))).
Proof.
  apply keeps_forM. intros account. apply keeps_when.
  apply keeps_bind; [apply keeps_emit|intros _; apply keeps_emit].
Qed.



(** The first part of [mustEmitMetrics], up to the first lookup of the
    epoch info: it returns and leaves the cached entry alone. *)
Lemma mustEmitMetrics_prefix response w :
  exists w3,
    mustEmitMetrics env config response w
      = (r <- getCachedEpochInfo env ;;
         when (isErr (snd r)) (emit (EvLog "Error while getting epoch info")) ;;
         acc <- currentLoop env config (netVote config (Current response))
                  (Current response) noCredits ;;
         ch_metric networkVoteCredits
           (F64.div (runningCurrentCredits acc)
              (F64.of_int (currentCreditsCount acc))) ["current"] ;;
         ch_metric networkVoteCredits
           (F64.div (runningPreviousCredits acc)
              (F64.of_int (previousCreditsCount acc))) ["previous"] ;;
         forM (Delinquent response)
           (fun vote => when (tracked config vote) (emitDelinquent env vote))) w3 /\
    cachedEpochInfo w3 = cachedEpochInfo w /\
    cachedEpochTime w3 = cachedEpochTime w /\
    (tick w <= tick w3)%nat.
Proof.
  unfold mustEmitMetrics.
  destruct (returns_emit
              (EvMetric totalValidatorsDesc
                 (F64.of_int (Z.of_nat (List.length (Delinquent response))))
                 ["delinquent"]) w) as ([] & w1 & H1).
  destruct (returns_emit
              (EvMetric totalValidatorsDesc
                 (F64.of_int (Z.of_nat (List.length (Current response))))
                 ["current"]) w1) as ([] & w2 & H2).
  destruct (returns_lastVoteLoop (Current response ++ Delinquent response) w2)
    as ([] & w3 & H3).
  exists w3. unfold ch_metric at 1 2.
  rewrite (bind_run _ _ _ _ _ H1), (bind_run _ _ _ _ _ H2), (bind_run _ _ _ _ _ H3).
  split; [reflexivity|].
  destruct (keeps_emit _ _ _ _ H1) as (? & ? & ?).
  destruct (keeps_emit _ _ _ _ H2) as (? & ? & ?).
  destruct (keeps_lastVoteLoop _ _ _ _ H3) as (? & ? & ?).
  repeat split; try congruence. lia.
Qed.

End Returns.


(** With no cached epoch info and the epoch-info query failing, a
    non-empty current set makes [mustEmitMetrics] panic. *)
Theorem mustEmitMetrics_panics_without_epoch_info :
  forall env config response w,
    cachedEpochInfo w = None ->
    (forall i, snd (GetEpochInfo env i) <> None) ->
    Current response <> [] ->
    exists w', mustEmitMetrics env config response w = Panic w'.
Proof.
  intros env config response w Hc Hfail Hne.
  destruct (mustEmitMetrics_prefix env config response w) as (w3 & -> & Hc3 & _ & _).
  rewrite Hc in Hc3.
  assert (Hmiss : forall w0, cachedEpochInfo w0 = None ->
            exists err w1,
              getCachedEpochInfo env w0 = Done (None, Some err) w1 /\
              cachedEpochInfo w1 = None).
  { intros w0 H0. assert (Hx : expired env w0) by (unfold expired; now rewrite H0).
    rewrite (getCachedEpochInfo_miss env w0 Hx).
    destruct (snd (GetEpochInfo env (refreshTick w0))) as [err|] eqn:E;
      [|now apply Hfail in E].
    eexists; eexists; split; [reflexivity|exact H0]. }
  destruct (Hmiss w3 Hc3) as (err & w4 & Hr & Hc4).
  rewrite (bind_run _ _ _ _ _ Hr). cbn [snd isErr when].
  rewrite (bind_run _ _ _ _ _ (eq_refl : emit _ w4 = Done tt _)).
  destruct (Current response) as [|vote rest]; [contradiction|].
  cbn [currentLoop]. unfold bind at 1. unfold bind at 1.
  rewrite calcualteEpochVoteCredits_run.
  match goal with |- context [getCachedEpochInfo env ?w5] =>
    destruct (Hmiss w5 Hc4) as (err' & w6 & Hr' & _) end.
  rewrite Hr'. eexists. reflexivity.
Qed.

(** A collection pass panics when the vote-accounts query succeeds with
    a non-empty current set while there is no cached epoch info and the
    epoch-info query keeps failing. *)
Theorem Collect_panics_without_epoch_info :
  forall env config w,
    snd (GetVoteAccounts env) = None ->
    Current (fst (GetVoteAccounts env)) <> [] ->
    cachedEpochInfo w = None ->
    (forall i, snd (GetEpochInfo env i) <> None) ->
    exists w', Collect env config w = Panic w'.
Proof.
  intros env config w Hok Hne Hc Hfail. unfold Collect.
  rewrite (bind_run _ _ _ _ _
             (eq_refl : query RpcVoteAccounts (GetVoteAccounts env) w = Done _ _)).
  cbv beta. rewrite Hok. unfold bind at 1.
  match goal with |- context [mustEmitMetrics env config ?r ?w1] =>
    destruct (mustEmitMetrics_panics_without_epoch_info env config r w1 Hc Hfail Hne)
      as (w' & Hp) end.
  rewrite Hp. now exists w'.
Qed.


Lemma Collect_panics_without_epoch_info_witness :
  exists w',
    Collect (epochDownEnv {| Current := [account "NodeB" "VoteB" 900 []];
                             Delinquent := [] |})
            sampleConfig initial = Panic w'.
Proof.
  apply Collect_panics_without_epoch_info.
  - reflexivity.
  - discriminate.
  - reflexivity.
  - intros i. discriminate.
Defined.


(** ** What a pass emits for the tracked validator *)

Lemma yields_forM {X A} (o : Event -> list X) (f : A -> M unit) (g : A -> list X) l :
  (forall x, yields o (f x) (g x)) -> yields o (forM l f) (flat_map g l).
Proof.
  intros Hf. induction l as [|x l IH]; [apply yields_ret|].
  cbn [forM flat_map]. eapply yields_bind; [apply Hf|intros _; exact IH|reflexivity].
Qed.

Lemma flat_map_filter {A X} (p : A -> bool) (d : A -> list X) l :
  flat_map (fun x => if p x then d x else []) l = flat_map d (filter p l).
Proof.
  induction l as [|x l IH]; [reflexivity|]. cbn [flat_map filter].
  destruct (p x); cbn [flat_map app]; now rewrite IH.
Qed.

Section Tracked.

Variable env : Env.
Variable config : Config.

Lemma statuses_emitTracked net vote c p :
  yields statusOf (emitTracked env config net vote c p) [votingStatus vote].
Proof.
  unfold emitTracked, votingStatus. do 4 quiet_emit.
  eapply yields_bind; [|intros _|symmetry; apply app_nil_r].
  { destruct (negb (EpochVoteAccount vote) && (ActivatedStake vote <=? 0));
      (apply yields_quiet_bind;
         [apply yields_AlertValidatorStatus; intros; reflexivity|intros _]);
      exact (yields_emit _ _). }
  do 4 quiet_emit. exact (yields_emit _ _).
Qed.

Lemma statuses_currentLoop net l : forall acc,
  yields statusOf (currentLoop env config net l acc)
    (map votingStatus (filter (tracked config) l)).
Proof.
  induction l as [|vote l IH]; intros acc; [apply yields_ret|].
  cbn [currentLoop filter].
  apply yields_quiet_bind;
    [apply yields_calcualteEpochVoteCredits; intros; reflexivity|intros cp].
  destruct (tracked config vote).
  - eapply yields_bind; [apply statuses_emitTracked|intros _; apply IH|reflexivity].
  - apply yields_quiet_bind; [apply yields_ret|intros _; apply IH].
Qed.

Lemma quiet_lastVoteLoop {X} (o : Event -> list X) l :
  (forall v lbl, o (EvMetric validatorLastVote v lbl) = []) ->
  (forall v lbl, o (EvMetric validatorRootSlot v lbl) = []) ->
  yields o
    (forM l (fun account =>
       when (tracked config account)
         (ch_metric validatorLastVote (F64.of_int (LastVote account))
            [VotePubkey account; NodePubkey account] ;;
          ch_metric validatorRootSlot (F64.of_int (RootSlot account))
            [VotePubkey account; NodePubkey account]))) [].
Proof.
  intros H1 H2. apply yields_forM_quiet. intros account.
  destruct (tracked config account); [|apply yields_ret]. cbn [when].
  apply yields_quiet_bind; [|intros _].
  - unfold ch_metric. rewrite <- (H1 (F64.of_int (LastVote account))
                                     [VotePubkey account; NodePubkey account]).
    apply yields_emit.
  - unfold ch_metric. rewrite <- (H2 (F64.of_int (RootSlot account))
                                     [VotePubkey account; NodePubkey account]).
    apply yields_emit.
Qed.

Lemma statuses_emitDelinquent vote : yields statusOf (emitDelinquent env vote) [].
Proof.
  unfold emitDelinquent. do 2 quiet_emit.
  do 2 (apply yields_quiet_bind;
          [apply yields_alerter_Send; intros; reflexivity|intros ?];
        apply yields_quiet_bind;
          [apply yields_when_log; intros; reflexivity|intros _]).
  apply yields_quiet_bind;
    [apply yields_alerter_Send; intros; reflexivity|intros ?].
  apply yields_when_log; intros; reflexivity.
Qed.

Lemma statuses_mustEmitMetrics response :
  yields statusOf (mustEmitMetrics env config response)
    (map votingStatus (filter (tracked config) (Current response))).
Proof.
  unfold mustEmitMetrics. do 2 quiet_emit.
  apply yields_quiet_bind; [apply quiet_lastVoteLoop; reflexivity|intros _].
  apply yields_quiet_bind;
    [apply yields_getCachedEpochInfo; intros; reflexivity|intros r].
  apply yields_quiet_bind; [apply yields_when_log; intros; reflexivity|intros _].
  eapply yields_bind; [apply statuses_currentLoop| |symmetry; apply app_nil_r].
  intros acc. do 2 quiet_emit.
  apply yields_forM_quiet. intros vote.
  destruct (tracked config vote); [apply statuses_emitDelinquent|apply yields_ret].
Qed.

End Tracked.

(** In a pass that returns, every record of the tracked validator in the
    current set gets one voting-status metric: 0 with the label "Jailed"
    when the record is not an epoch vote account and its activated stake
    is not positive, 1 with the label "Voting" otherwise.  Records of the
    delinquent set get none. *)
Theorem voting_status_classification :
  forall env config response w w',
    mustEmitMetrics env config response w = Done tt w' ->
    votingStatuses (trace w')
      = (votingStatuses (trace w)
         ++ map votingStatus (filter (tracked config) (Current response)))%list.
Proof.
  intros env config response w w' Hrun.
  exact (statuses_mustEmitMetrics env config response _ _ _ Hrun).
Qed.

Lemma voting_status_classification_witness :
  exists w',
    mustEmitMetrics (steadyEnv twoVoteAccounts "true" None) sampleConfig
      twoVoteAccounts warmWorld = Done tt w' /\
    votingStatuses (trace w') = [(F64.one, ["Voting"]); (F64.zero, ["Jailed"])].
Proof.
  eexists. split; [vm_compute; reflexivity|].
  refine (voting_status_classification
            (steadyEnv twoVoteAccounts "true" None) sampleConfig twoVoteAccounts
            warmWorld _ _).
  vm_compute. reflexivity.
Defined.

(** ** Passes without the tracked validator in the current set *)

Lemma yields_forM_when_none {X A} (o : Event -> list X) (p : A -> bool)
    (f : A -> M unit) l :
  filter p l = [] -> yields o (forM l (fun x => when (p x) (f x))) [].
Proof.
  induction l as [|x l IH]; intros H; [apply yields_ret|].
  cbn [forM filter] in *. destruct (p x); [discriminate H|].
  apply yields_quiet_bind; [apply yields_ret|intros _; now apply IH].
Qed.

Section Untracked.

Context {X : Type} (o : Event -> list X).
Hypothesis o_query : forall r, o (EvQuery r) = [].
Hypothesis o_log : forall l, o (EvLog l) = [].

Variable env : Env.
Variable config : Config.

Lemma currentLoop_untracked net l : forall acc,
  filter (tracked config) l = [] ->
  yields o (currentLoop env config net l acc) [].
Proof.
  induction l as [|vote l IH]; intros acc H; [apply yields_ret|].
  cbn [currentLoop filter] in *.
  destruct (tracked config vote); [discriminate H|].
  apply yields_quiet_bind;
    [apply yields_calcualteEpochVoteCredits; assumption|intros cp].
  apply yields_quiet_bind; [apply yields_ret|intros _; now apply IH].
Qed.

End Untracked.

Section Delinquent.

Variable env : Env.
Variable config : Config.

Lemma sends_alerter_Send c msg :
  yields sendOf (alerter_Send env c msg) [(c, msg)].
Proof.
  unfold alerter_Send. apply yields_quiet_bind; [apply yields_next|intros i].
  eapply yields_bind;
    [exact (yields_emit _ _)|intros _; apply yields_ret|reflexivity].
Qed.

Lemma sends_emitDelinquent vote :
  yields sendOf (emitDelinquent env vote) delinquentDispatch.
Proof.
  unfold emitDelinquent, delinquentDispatch. do 2 quiet_emit.
  eapply yields_bind; [apply sends_alerter_Send|intros ?|reflexivity].
  apply yields_quiet_bind; [apply yields_when_log; intros; reflexivity|intros _].
  eapply yields_bind; [apply sends_alerter_Send|intros ?|reflexivity].
  apply yields_quiet_bind; [apply yields_when_log; intros; reflexivity|intros _].
  eapply yields_bind; [apply sends_alerter_Send|intros ?|reflexivity].
  apply yields_when_log; intros; reflexivity.
Qed.

Lemma dedups_emitDelinquent vote : yields dedupOf (emitDelinquent env vote) [].
Proof.
  unfold emitDelinquent. do 2 quiet_emit.
  do 2 (apply yields_quiet_bind;
          [apply yields_alerter_Send; intros; reflexivity|intros ?];
        apply yields_quiet_bind;
          [apply yields_when_log; intros; reflexivity|intros _]).
  apply yields_quiet_bind;
    [apply yields_alerter_Send; intros; reflexivity|intros ?].
  apply yields_when_log; intros; reflexivity.
Qed.

Lemma sends_mustEmitMetrics response :
  filter (tracked config) (Current response) = [] ->
  yields sendOf (mustEmitMetrics env config response)
    (flat_map (fun _ => delinquentDispatch)
       (filter (tracked config) (Delinquent response))).
Proof.
  intros Hcur. unfold mustEmitMetrics. do 2 quiet_emit.
  apply yields_quiet_bind; [apply quiet_lastVoteLoop; reflexivity|intros _].
  apply yields_quiet_bind;
    [apply yields_getCachedEpochInfo; intros; reflexivity|intros r].
  apply yields_quiet_bind; [apply yields_when_log; intros; reflexivity|intros _].
  apply yields_quiet_bind;
    [apply currentLoop_untracked; [reflexivity|reflexivity|exact Hcur]|intros acc].
  do 2 quiet_emit.
  rewrite <- (flat_map_filter (tracked config) (fun _ => delinquentDispatch)).
  apply yields_forM. intros vote.
  destruct (tracked config vote); [apply sends_emitDelinquent|apply yields_ret].
Qed.

Lemma dedups_mustEmitMetrics response :
  filter (tracked config) (Current response) = [] ->
  yields dedupOf (mustEmitMetrics env config response) [].
Proof.
  intros Hcur. unfold mustEmitMetrics. do 2 quiet_emit.
  apply yields_quiet_bind; [apply quiet_lastVoteLoop; reflexivity|intros _].
  apply yields_quiet_bind;
    [apply yields_getCachedEpochInfo; intros; reflexivity|intros r].
  apply yields_quiet_bind; [apply yields_when_log; intros; reflexivity|intros _].
  apply yields_quiet_bind;
    [apply currentLoop_untracked; [reflexivity|reflexivity|exact Hcur]|intros acc].
  do 2 quiet_emit.
  apply yields_forM_quiet. intros vote.
  destruct (tracked config vote); [apply dedups_emitDelinquent|apply yields_ret].
Qed.

Lemma descs_mustEmitMetrics response :
  filter (tracked config) (Current response ++ Delinquent response) = [] ->
  yields metricOf (mustEmitMetrics env config response)
    [totalValidatorsDesc; totalValidatorsDesc; networkVoteCredits; networkVoteCredits].
Proof.
  intros Hnone. pose proof Hnone as Hboth. rewrite filter_app in Hboth.
  apply app_eq_nil in Hboth as [Hcur Hdel].
  unfold mustEmitMetrics.
  eapply yields_bind; [exact (yields_emit _ _)|intros _|reflexivity].
  eapply yields_bind; [exact (yields_emit _ _)|intros _|reflexivity].
  apply yields_quiet_bind; [now apply yields_forM_when_none|intros _].
  apply yields_quiet_bind;
    [apply yields_getCachedEpochInfo; intros; reflexivity|intros r].
  apply yields_quiet_bind; [apply yields_when_log; intros; reflexivity|intros _].
  apply yields_quiet_bind;
    [apply currentLoop_untracked; [reflexivity|reflexivity|exact Hcur]|intros acc].
  eapply yields_bind; [exact (yields_emit _ _)|intros _|reflexivity].
  eapply yields_bind;
    [exact (yields_emit _ _)|intros _|symmetry; apply app_nil_r].
  now apply yields_forM_when_none.
Qed.

End Delinquent.

(** A tracked validator that is only in the delinquent set is alerted on
    in every pass that returns: each of its delinquent records sends the
    delinquency alert on the three channels, and no dedup query is made. *)
Theorem delinquent_alerts_are_not_deduplicated :
  forall env config response w w',
    mustEmitMetrics env config response w = Done tt w' ->
    filter (tracked config) (Current response) = [] ->
    sends (trace w')
      = (sends (trace w)
         ++ flat_map (fun _ => delinquentDispatch)
              (filter (tracked config) (Delinquent response)))%list /\
    dedupQueries (trace w') = dedupQueries (trace w).
Proof.
  intros env config response w w' Hrun Hcur. split.
  - exact (sends_mustEmitMetrics env config response Hcur _ _ _ Hrun).
  - unfold dedupQueries.
    rewrite (dedups_mustEmitMetrics env config response Hcur _ _ _ Hrun).
    apply app_nil_r.
Qed.

Lemma delinquent_alerts_are_not_deduplicated_witness :
  exists w',
    mustEmitMetrics (steadyEnv noAccounts "true" None) sampleConfig
      {| Current := [account "NodeB" "VoteB" 900 [[101; 60; 50]]];
         Delinquent := [account "NodeA" "VoteA" 700 []] |} warmWorld = Done tt w' /\
    sends (trace w') = delinquentDispatch /\
    dedupQueries (trace w') = [].
Proof.
  eexists. split; [vm_compute; reflexivity|].
  refine (delinquent_alerts_are_not_deduplicated
            (steadyEnv noAccounts "true" None) sampleConfig
            {| Current := [account "NodeB" "VoteB" 900 [[101; 60; 50]]];
               Delinquent := [account "NodeA" "VoteA" 700 []] |} warmWorld _ _ _).
  - vm_compute. reflexivity.
  - reflexivity.
Defined.

(** When the tracked validator is in neither set, a pass that returns
    emits the two validator counts and the two network averages and no
    other metric, sends no alert and makes no dedup query. *)
Theorem untracked_validator_only_aggregates :
  forall env config response w w',
    mustEmitMetrics env config response w = Done tt w' ->
    filter (tracked config) (Current response ++ Delinquent response) = [] ->
    metricDescs (trace w')
      = (metricDescs (trace w)
         ++ [totalValidatorsDesc; totalValidatorsDesc;
             networkVoteCredits; networkVoteCredits])%list /\
    sends (trace w') = sends (trace w) /\
    dedupQueries (trace w') = dedupQueries (trace w).
Proof.
  intros env config response w w' Hrun Hnone.
  pose proof Hnone as Hboth. rewrite filter_app in Hboth.
  apply app_eq_nil in Hboth as [Hcur Hdel].
  split; [exact (descs_mustEmitMetrics env config response Hnone _ _ _ Hrun)|].
  split.
  - unfold sends.
    rewrite (sends_mustEmitMetrics env config response Hcur _ _ _ Hrun), Hdel.
    apply app_nil_r.
  - unfold dedupQueries.
    rewrite (dedups_mustEmitMetrics env config response Hcur _ _ _ Hrun).
    apply app_nil_r.
Qed.

Lemma untracked_validator_only_aggregates_witness :
  exists w',
    mustEmitMetrics (steadyEnv noAccounts "true" None) sampleConfig
      {| Current := [account "NodeB" "VoteB" 900 [[101; 60; 50]]];
         Delinquent := [account "NodeC" "VoteC" 700 []] |} warmWorld = Done tt w' /\
    metricDescs (trace w')
      = [totalValidatorsDesc; totalValidatorsDesc;
         networkVoteCredits; networkVoteCredits] /\
    sends (trace w') = [] /\
    dedupQueries (trace w') = [].
Proof.
  eexists. split; [vm_compute; reflexivity|].
  refine (untracked_validator_only_aggregates
            (steadyEnv noAccounts "true" None) sampleConfig
            {| Current := [account "NodeB" "VoteB" 900 [[101; 60; 50]]];
               Delinquent := [account "NodeC" "VoteC" 700 []] |} warmWorld _ _ _).
  - vm_compute. reflexivity.
  - reflexivity.
Defined.

(** ** The collection pass, continued *)

(** How each failing query of a pass shows: the vote-accounts failure as
    five invalid-metric markers, a version reply without a version as
    nothing at all, the slot-leader failure as one marker, the
    current-slot failure as a log line only, and the transaction-count
    failure as an ordinary metric of whatever count the reply carried. *)
Theorem Collect_failures_surface :
  forall env config w e1 e2 e3 e4 e5 leader slot count,
    snd (GetVoteAccounts env) = Some e1 ->
    GetVersion env = ("", e2) ->
    GetSlotLeader env = (leader, Some e3) ->
    GetCurrentSlot env = (slot, Some e4) ->
    GetTxCount env = (count, Some e5) ->
    Collect env config w
      = Done tt
          (logged w
             [EvQuery RpcVoteAccounts;
              EvInvalid totalValidatorsDesc e1;
              EvInvalid validatorActivatedStake e1;
              EvInvalid validatorLastVote e1;
              EvInvalid validatorRootSlot e1;
              EvInvalid validatorDelinquent e1;
              EvQuery RpcVersion;
              EvQuery RpcSlotLeader;
              EvInvalid slotLeader e3;
              EvQuery RpcCurrentSlot;
              EvLog "Error while getting current slot info";
              EvQuery RpcTxCount;
              EvMetric txCount (F64.of_int count)
                [NearestThousandFormat env (F64.of_int count)]]).
Proof.
  intros env config w e1 e2 e3 e4 e5 leader slot count H1 H2 H3 H4 H5.
  unfold Collect. run. rewrite H1. run. rewrite collectRest_run.
  unfold restEvents, versionEvents, slotLeaderEvents, currentSlotEvents,
    txCountEvents. rewrite H2, H3, H4, H5. cbn [fst snd String.eqb].
  unfold logged. cbn [trace cachedEpochInfo cachedEpochTime tick app].
  rewrite <- !app_assoc. reflexivity.
Qed.

Lemma Collect_failures_surface_witness :
  exists w',
    Collect {| clock := fun _ => tenAM;
               GetEpochInfo := fun _ => (info101, None);
               AlertStatusCountFromPrometheus := fun _ => ("false", None);
               SendAlert := fun _ _ => None;
               GetVoteAccounts := (noAccounts, Some "rpc: timeout");
               GetVersion := ("", Some "rpc: timeout");
               GetSlotLeader := ("", Some "rpc: timeout");
               GetCurrentSlot := (0, Some "rpc: timeout");
               GetTxCount := (0, Some "rpc: timeout");
               NearestThousandFormat := fun _ => "0" |}
            sampleConfig initial = Done tt w' /\
    metricDescs (trace w') = [txCount].
Proof.
  eexists. split.
  - apply Collect_failures_surface with (e1 := "rpc: timeout")
      (e2 := Some "rpc: timeout") (e3 := "rpc: timeout") (e4 := "rpc: timeout")
      (e5 := "rpc: timeout") (leader := "") (slot := 0) (count := 0);
      reflexivity.
  - reflexivity.
Defined.

(** ** The block-time difference, continued *)

(** Block times further apart than a [Duration] holds all give the same
    result, whichever is the later one. *)
Theorem blockTimeDiff_beyond_duration :
  forall bt pvt,
    in_Time bt -> in_Time pvt -> maxSeconds < Z.abs (bt - pvt) ->
    blockTimeDiff bt pvt = saturatedDiff.
Proof.
  unfold in_Time, maxSeconds. intros bt pvt Hb Hp Hd.
  unfold blockTimeDiff, time.Unix. rewrite !wrap64_id by assumption.
  assert (Hs : time.Sub ((bt + time.unixToInternal) * time.Second)
                 ((pvt + time.unixToInternal) * time.Second) = time.maxDuration \/
               time.Sub ((bt + time.unixToInternal) * time.Second)
                 ((pvt + time.unixToInternal) * time.Second) = time.minDuration).
  { unfold time.Sub, time.minDuration, time.maxDuration, time.Second.
    replace ((bt + time.unixToInternal) * 1000000000
             - (pvt + time.unixToInternal) * 1000000000)
      with ((bt - pvt) * 1000000000) by lia.
    destruct (Z.ltb_spec ((bt - pvt) * 1000000000) (- 2 ^ 63)) as [Hlt|Hge];
      [now right|].
    destruct (Z.ltb_spec (2 ^ 63 - 1) ((bt - pvt) * 1000000000)) as [Hgt|Hle];
      [now left|]. lia. }
  destruct Hs as [-> | ->]; vm_compute; reflexivity.
Qed.

Lemma blockTimeDiff_beyond_duration_witness :
  blockTimeDiff 0 9223372037 = saturatedDiff.
Proof.
  apply blockTimeDiff_beyond_duration.
  - vm_compute. split; discriminate.
  - vm_compute. split; discriminate.
  - vm_compute. reflexivity.
Defined.

(** ** Label values and descriptors *)

Section Labels.

Variable env : Env.
Variable config : Config.

Lemma labels_alertLoop msg cur l :
  forall count, yields mislabelledOf (alertLoop env msg cur l count) [].
Proof.
  induction l as [|slot l IH]; intros count; [apply yields_ret|].
  cbn [alertLoop]. destruct (String.eqb cur slot); [|apply IH].
  apply yields_quiet_bind.
  - unfold querier_AlertStatusCountFromPrometheus.
    apply yields_quiet_bind; [apply yields_next|intros i].
    apply yields_quiet_bind; [exact (yields_emit _ _)|intros; apply yields_ret].
  - intros r. destruct (String.eqb (fst r) "false").
    + apply yields_quiet_bind;
        [apply yields_sendAll; intros; reflexivity|intros _].
      apply yields_quiet_bind; [exact (yields_emit _ _)|intros _; apply IH].
    + apply yields_quiet_bind; [exact (yields_emit _ _)|intros _; apply yields_ret].
Qed.

Lemma labels_AlertValidatorStatus msg :
  yields mislabelledOf (AlertValidatorStatus env config msg) [].
Proof.
  unfold AlertValidatorStatus.
  apply yields_quiet_bind; [apply yields_timeNow|intros now].
  apply yields_quiet_bind; [exact (yields_emit _ _)|intros _].
  apply yields_quiet_bind; [apply labels_alertLoop|intros; apply yields_ret].
Qed.

Lemma labels_emitTracked net vote c p :
  yields mislabelledOf (emitTracked env config net vote c p) [].
Proof.
  unfold emitTracked. do 4 quiet_emit.
  apply yields_quiet_bind.
  { destruct (negb (EpochVoteAccount vote) && (ActivatedStake vote <=? 0));
      (apply yields_quiet_bind; [apply labels_AlertValidatorStatus|intros _]);
      exact (yields_emit _ _). }
  intros _. do 4 quiet_emit. exact (yields_emit _ _).
Qed.

Lemma labels_currentLoop net l :
  forall acc, yields mislabelledOf (currentLoop env config net l acc) [].
Proof.
  induction l as [|vote l IH]; intros acc; [apply yields_ret|].
  cbn [currentLoop].
  apply yields_quiet_bind;
    [apply yields_calcualteEpochVoteCredits; intros; reflexivity|intros cp].
  apply yields_quiet_bind; [|intros _; apply IH].
  destruct (tracked config vote); [apply labels_emitTracked|apply yields_ret].
Qed.

Lemma labels_emitDelinquent vote :
  yields mislabelledOf (emitDelinquent env vote) [].
Proof.
  unfold emitDelinquent. do 2 quiet_emit.
  do 2 (apply yields_quiet_bind;
          [apply yields_alerter_Send; intros; reflexivity|intros ?];
        apply yields_quiet_bind;
          [apply yields_when_log; intros; reflexivity|intros _]).
  apply yields_quiet_bind;
    [apply yields_alerter_Send; intros; reflexivity|intros ?].
  apply yields_when_log; intros; reflexivity.
Qed.

Lemma labels_mustEmitMetrics response :
  yields mislabelledOf (mustEmitMetrics env config response) [].
Proof.
  unfold mustEmitMetrics. do 2 quiet_emit.
  apply yields_quiet_bind.
  { apply yields_forM_quiet. intros account.
    destruct (tracked config account); [|apply yields_ret].
    cbn [when]. quiet_emit. exact (yields_emit _ _). }
  intros _.
  apply yields_quiet_bind;
    [apply yields_getCachedEpochInfo; intros; reflexivity|intros r].
  apply yields_quiet_bind; [apply yields_when_log; intros; reflexivity|intros _].
  apply yields_quiet_bind; [apply labels_currentLoop|intros acc].
  do 2 quiet_emit.
  apply yields_forM_quiet. intros vote.
  destruct (tracked config vote); [apply labels_emitDelinquent|apply yields_ret].
Qed.

Lemma labels_Collect : yields mislabelledOf (Collect env config) [].
Proof.
  unfold Collect.
  apply yields_quiet_bind.
  { unfold query. apply yields_quiet_bind;
      [exact (yields_emit _ _)|intros; apply yields_ret]. }
  intros accs. apply yields_quiet_bind.
  { destruct (snd accs) as [err|]; [|apply labels_mustEmitMetrics].
    do 4 (apply yields_quiet_bind; [exact (yields_emit _ _)|intros _]).
    exact (yields_emit _ _). }
  intros _ w a w' H. rewrite collectRest_run in H. injection H as _ <-.
  unfold logged. cbn [trace]. rewrite flat_map_app. f_equal.
  unfold restEvents, versionEvents, slotLeaderEvents, currentSlotEvents,
    txCountEvents.
  destruct (String.eqb (fst (GetVersion env)) ""),
           (snd (GetSlotLeader env)),
           (String.eqb (fst (GetSlotLeader env)) ""),
           (snd (GetCurrentSlot env)); reflexivity.
Qed.

End Labels.

(** Every metric a pass emits carries as many label values as
    [NewSolanaCollector] declared variable labels for its descriptor, so
    that no [MustNewConstMetric] of the pass panics over them. *)
Theorem Collect_label_values_match_descriptors :
  forall env config w w',
    Collect env config w = Done tt w' ->
    mislabelled (trace w') = mislabelled (trace w).
Proof.
  intros env config w w' Hrun. unfold mislabelled.
  rewrite (labels_Collect env config _ _ _ Hrun). apply app_nil_r.
Qed.

Lemma Collect_label_values_match_descriptors_witness :
  exists w',
    Collect (steadyEnv twoVoteAccounts "false" None) sampleConfig warmWorld
      = Done tt w' /\
    mislabelled (trace w') = [].
Proof.
  eexists. split; [vm_compute; reflexivity|].
  refine (Collect_label_values_match_descriptors
            (steadyEnv twoVoteAccounts "false" None) sampleConfig warmWorld _ _).
  vm_compute. reflexivity.
Defined.

(** ** The collector's other queries *)

Lemma last_cons_default {A} (l : list A) : forall x d, last (x :: l) d = last l x.
Proof.
  induction l as [|y l IH]; intros x d; [reflexivity|].
  change (last (x :: y :: l) d) with (last (y :: l) d). now rewrite !IH.
Qed.

Lemma gossipLoop_last config nodes : forall address,
  gossipLoop config nodes address
    = lastOr address
        (map Gossip (filter (fun n => String.eqb (Pubkey n) (PubKey config)) nodes)).
Proof.
  unfold lastOr. induction nodes as [|n nodes IH]; intros address; [reflexivity|].
  cbn [gossipLoop filter]. rewrite IH.
  destruct (String.eqb (Pubkey n) (PubKey config)); [|reflexivity].
  cbn [map]. now rewrite last_cons_default.
Qed.

(** [getClusterNodeInfo] always returns: the gossip address of the last
    node carrying the tracked key, the empty string when no node carries
    it, and a failed query adds a log line without stopping the scan of
    whatever nodes the reply holds. *)
Theorem getClusterNodeInfo_last_match :
  forall config reply w,
    getClusterNodeInfo config reply w
      = Done (lastOr ""
                (map Gossip
                   (filter (fun n => String.eqb (Pubkey n) (PubKey config))
                      (fst reply))))
             (logged w (match snd reply with
                        | Some _ => [EvLog "Error while getting cluster node information"]
                        | None => []
                        end)).
Proof.
  intros config reply w. unfold getClusterNodeInfo. rewrite gossipLoop_last.
  destruct (snd reply); run; unfold logged; rewrite ?app_nil_r;
    destruct w; reflexivity.
Qed.

Lemma networkVoteLoop_last config current : forall outN,
  networkVoteLoop config current outN
    = lastOr outN
        (map (fun v => F64.of_int (LastVote v)) (filter (tracked config) current)).
Proof.
  unfold lastOr. induction current as [|v current IH]; intros outN; [reflexivity|].
  cbn [networkVoteLoop filter]. rewrite IH.
  destruct (tracked config v); [|reflexivity].
  cbn [map]. now rewrite last_cons_default.
Qed.

(** [getNetworkVoteAccountinfo] reads the last vote of the last tracked
    record of the current set, where the loop in [mustEmitMetrics] that
    took its place reads the first one; on a response with at most one
    tracked record the two agree, and with none both give 0. *)
Theorem network_vote_last_against_first :
  forall config reply,
    getNetworkVoteAccountinfo config reply
      = lastOr F64.zero
          (map (fun v => F64.of_int (LastVote v))
             (filter (tracked config) (Current (fst reply)))) /\
    netVote config (Current (fst reply))
      = hd F64.zero
          (map (fun v => F64.of_int (LastVote v))
             (filter (tracked config) (Current (fst reply)))) /\
    ((List.length (filter (tracked config) (Current (fst reply))) <= 1)%nat ->
     getNetworkVoteAccountinfo config reply = netVote config (Current (fst reply))).
Proof.
  intros config reply. unfold getNetworkVoteAccountinfo.
  assert (Hnet : forall l,
            netVote config l
              = hd F64.zero (map (fun v => F64.of_int (LastVote v))
                               (filter (tracked config) l))).
  { induction l as [|v l IH]; [reflexivity|]. cbn [netVote filter].
    destruct (tracked config v); [reflexivity|exact IH]. }
  rewrite networkVoteLoop_last, Hnet. repeat split.
  intros Hle.
  destruct (filter (tracked config) (Current (fst reply))) as [|v [|v' l]];
    [reflexivity|reflexivity|cbn in Hle; lia].
Qed.

Lemma network_vote_last_against_first_witness :
  getNetworkVoteAccountinfo sampleConfig
    ({| Current := [account "NodeB" "VoteB" 905 []; account "NodeA" "VoteA" 900 []];
        Delinquent := [] |}, Some "rpc: timeout")
  = netVote sampleConfig
      [account "NodeB" "VoteB" 905 []; account "NodeA" "VoteA" 900 []].
Proof.
  refine (proj2 (proj2 (network_vote_last_against_first sampleConfig
            ({| Current := [account "NodeB" "VoteB" 905 [];
                            account "NodeA" "VoteA" 900 []];
                Delinquent := [] |}, Some "rpc: timeout"))) _).
  vm_compute. lia.
Defined.

(** When the confirmed-block query of the network fails and its reply
    carries no block time, both block-time functions still return, the
    failure is only logged, and the block-time difference computed from
    their results is the validator's block time itself. *)
Theorem block_time_diff_after_failed_query :
  forall vreply nreply err w,
    snd vreply = None ->
    nreply = (0, Some err) ->
    0 <= fst vreply <= maxSeconds ->
    exists w',
      (v <- getValidatorBlockTime vreply ;;
       n <- getNetworkBlockTime nreply ;;
       ret (blockTimeDiff v n)) w
        = Done (F64.of_int (fst vreply), FormatInt (fst vreply) ++ ".00") w' /\
      trace w'
        = (trace w ++ [EvLog "failed to fetch confirmed time of network, retrying"])%list.
Proof.
  intros vreply nreply err w Hv -> Ht.
  assert (Hbt : blockTimeDiff (fst vreply) 0
                = (F64.of_int (fst vreply), FormatInt (fst vreply) ++ ".00")).
  { unfold maxSeconds in Ht.
    rewrite blockTimeDiff_in_range.
    - rewrite Z.sub_0_r, Z.abs_eq by lia. apply canonical_whole. lia.
    - unfold in_Time, in_int64, int64_min, int64_max, time.unixToInternal. lia.
    - unfold in_Time, in_int64, int64_min, int64_max, time.unixToInternal. lia.
    - unfold maxSeconds. rewrite Z.sub_0_r, Z.abs_eq by lia. lia. }
  unfold getValidatorBlockTime, getNetworkBlockTime. rewrite Hv. run.
  cbn [isErr]. rewrite Hbt.
  eexists. split; reflexivity.
Qed.

Lemma block_time_diff_after_failed_query_witness :
  exists w',
    (v <- getValidatorBlockTime (1700000000, None) ;;
     n <- getNetworkBlockTime (0, Some "rpc: timeout") ;;
     ret (blockTimeDiff v n)) initial
      = Done (F64.of_int 1700000000, "1700000000.00") w' /\
    trace w' = [EvLog "failed to fetch confirmed time of network, retrying"].
Proof.
  refine (block_time_diff_after_failed_query (1700000000, None)
            (0, Some "rpc: timeout") "rpc: timeout" initial _ _ _).
  - reflexivity.
  - reflexivity.
  - vm_compute. split; discriminate.
Defined.

(** ** Times of day *)

Lemma roundTrips_all : forallb roundTrips allTimes = true.
Proof. vm_compute. reflexivity. Qed.

Lemma allTimes_valid hm : validTime hm -> In hm allTimes.
Proof.
  destruct hm as [h m]. unfold validTime. cbn [fst snd]. intros [Hh Hm].
  unfold allTimes. apply in_flat_map. exists (Z.to_nat h). split.
  - apply in_seq. lia.
  - apply in_map_iff. exists (Z.to_nat m). split.
    + now rewrite !Z2Nat.id by lia.
    + apply in_seq. lia.
Qed.

(** Parsing the Kitchen string of a time of day gives the time back. *)
Lemma Parse_Format hm : validTime hm -> Kitchen.Parse (Kitchen.Format hm) = Some hm.
Proof.
  intros Hv. pose proof roundTrips_all as Hall.
  rewrite forallb_forall in Hall. specialize (Hall hm (allTimes_valid hm Hv)).
  unfold roundTrips, sameTime in Hall.
  destruct (Kitchen.Parse (Kitchen.Format hm)) as [[h' m']|]; [|discriminate].
  destruct hm as [h m]. cbn [fst snd] in Hall.
  apply andb_prop in Hall as [H1 H2].
  apply Z.eqb_eq in H1, H2. now subst.
Qed.

Lemma of_instant_valid ns : validTime (Kitchen.of_instant ns).
Proof.
  unfold validTime, Kitchen.of_instant. cbn [fst snd].
  pose proof (Z.mod_pos_bound (ns / 1000000000 / 60) 1440 ltac:(lia)) as Hm.
  set (minutes := (ns / 1000000000 / 60) mod 1440) in *.
  pose proof (Z.mod_pos_bound minutes 60 ltac:(lia)).
  assert (0 <= minutes / 60) by (apply Z.div_pos; lia).
  assert (minutes / 60 < 24) by (apply Z.div_lt_upper_bound; lia).
  lia.
Qed.

Lemma isDigit_digit c : Kitchen.isDigit c = true -> 0 <= Kitchen.digit c <= 9.
Proof.
  unfold Kitchen.isDigit, Kitchen.digit. intros H.
  apply andb_prop in H as [H1 H2].
  apply Z.leb_le in H1, H2. lia.
Qed.

Lemma getnum_nonneg s fixed n rest :
  Kitchen.getnum s fixed = Some (n, rest) -> 0 <= n.
Proof.
  unfold Kitchen.getnum.
  destruct s as [|c0 [|c1 s]]; [discriminate| |].
  - destruct (Kitchen.isDigit c0) eqn:E0; [|discriminate].
    destruct fixed; [discriminate|]. intros [= <- _].
    apply isDigit_digit in E0. lia.
  - destruct (Kitchen.isDigit c0) eqn:E0; [|discriminate].
    apply isDigit_digit in E0.
    destruct (Kitchen.isDigit c1) eqn:E1.
    + apply isDigit_digit in E1. intros [= <- _]. lia.
    + destruct fixed; [discriminate|]. intros [= <- _]. lia.
Qed.

(** What [Parse] accepts is a time of day. *)
Lemma Parse_valid value hm : Kitchen.Parse value = Some hm -> validTime hm.
Proof.
  unfold Kitchen.Parse.
  destruct (Kitchen.getnum (list_ascii_of_string value) false)
    as [[hour v1]|] eqn:Eh; [|discriminate].
  apply getnum_nonneg in Eh.
  destruct (12 <? hour) eqn:E12; [discriminate|]. apply Z.ltb_ge in E12.
  destruct v1 as [|c v2]; [discriminate|].
  destruct c as [[] [] [] [] [] [] [] []]; try discriminate.
  destruct (Kitchen.getnum v2 true) as [[min v3]|] eqn:Em; [|discriminate].
  apply getnum_nonneg in Em.
  destruct (60 <=? min) eqn:E60; [discriminate|]. apply Z.leb_gt in E60.
  destruct v3 as [|p [|c' [|? ?]]]; try discriminate.
  all: destruct c' as [[] [] [] [] [] [] [] []]; try discriminate.
  destruct (Ascii.eqb p "P").
  - intros [= <-]. unfold validTime. cbn [fst snd].
    destruct (hour <? 12) eqn:E; [apply Z.ltb_lt in E|apply Z.ltb_ge in E]; lia.
  - destruct (Ascii.eqb p "A"); [|discriminate].
    intros [= <-]. unfold validTime. cbn [fst snd].
    destruct (hour =? 12) eqn:E; [apply Z.eqb_eq in E|apply Z.eqb_neq in E]; lia.
Qed.

Lemma slotTime_valid value : validTime (slotTime value).
Proof.
  unfold slotTime. destruct (Kitchen.Parse value) as [hm|] eqn:E.
  - exact (Parse_valid _ _ E).
  - unfold validTime. cbn. lia.
Qed.

(** Two times of day with the same Kitchen string are the same time. *)
Lemma Format_injective a b :
  validTime a -> validTime b -> Kitchen.Format a = Kitchen.Format b -> a = b.
Proof.
  intros Ha Hb H. apply (f_equal Kitchen.Parse) in H.
  rewrite !Parse_Format in H by assumption. now injection H.
Qed.

Lemma sameTime_eq a b : sameTime a b = true <-> a = b.
Proof.
  unfold sameTime. destruct a as [h m], b as [h' m']. cbn [fst snd].
  rewrite andb_true_iff, !Z.eqb_eq. split; [intros [-> ->]; reflexivity|].
  intros [= -> ->]. split; reflexivity.
Qed.

Lemma slot_matches_iff now value :
  String.eqb (Kitchen.Format (Kitchen.of_instant now)) (Kitchen.normalize value)
    = sameTime (slotTime value) (Kitchen.of_instant now).
Proof.
  change (Kitchen.normalize value) with (Kitchen.Format (slotTime value)).
  apply eq_true_iff_eq. rewrite String.eqb_eq, sameTime_eq. split.
  - intros H. symmetry.
    apply Format_injective; auto using of_instant_valid, slotTime_valid.
  - now intros ->.
Qed.

(** The slots that match at an evaluation are exactly the configured
    values naming the current UTC time of day, a value that does not parse
    naming midnight; every accepted spelling of the same minute matches. *)
Theorem slots_match_in_their_utc_minute :
  forall env config w,
    matchingSlots config (currentMinute env w)
      = map Kitchen.normalize
          (filter (fun value =>
                     sameTime (slotTime value)
                              (Kitchen.of_instant (clock env (tick w))))
                  (AlertTimings config)).
Proof.
  intros env config w. unfold matchingSlots, currentMinute, alertsArray.
  induction (AlertTimings config) as [|value l IH]; [reflexivity|].
  cbn [map filter]. rewrite slot_matches_iff, IH.
  now destruct (sameTime _ _).
Qed.

(** ** Exact quotients *)

Lemma mantissa_value p :
  Zpos (digits2_pos p) <= 53 ->
  Zpos (mantissa p) = Zpos p * 2 ^ (53 - Zpos (digits2_pos p)).
Proof.
  intros Hd. unfold mantissa.
  destruct (53 - Zpos (digits2_pos p)) as [|k|k] eqn:Ek; try lia.
  apply iter_xO_value.
Qed.

Lemma digits2_pos_mul k b :
  Zpos (digits2_pos (k * b)) = Zpos (digits2_pos k) + Zpos (digits2_pos b) - 1 \/
  Zpos (digits2_pos (k * b)) = Zpos (digits2_pos k) + Zpos (digits2_pos b).
Proof.
  pose proof (digits2_pos_lower k) as Hlk. pose proof (digits2_pos_upper k) as Huk.
  pose proof (digits2_pos_lower b) as Hlb. pose proof (digits2_pos_upper b) as Hub.
  pose proof (digits2_pos_lower (k * b)) as Hl.
  pose proof (digits2_pos_upper (k * b)) as Hu.
  rewrite Pos2Z.inj_mul in Hl, Hu.
  set (dk := Zpos (digits2_pos k)) in *. set (db := Zpos (digits2_pos b)) in *.
  set (d := Zpos (digits2_pos (k * b))) in *.
  assert (Hdk : 0 < dk) by (subst dk; lia).
  assert (Hdb : 0 < db) by (subst db; lia).
  assert (Hd : 0 < d) by (subst d; lia).
  assert (Hlo : 2 ^ (dk + db - 2) <= Zpos k * Zpos b).
  { replace (dk + db - 2) with ((dk - 1) + (db - 1)) by lia.
    rewrite Z.pow_add_r by lia.
    apply Z.mul_le_mono_nonneg; try lia; apply Z.pow_nonneg; lia. }
  assert (Hhi : Zpos k * Zpos b < 2 ^ (dk + db)).
  { rewrite Z.pow_add_r by lia. apply Z.mul_lt_mono_nonneg; lia. }
  destruct (Z.le_gt_cases d (dk + db - 2)) as [H|H].
  - assert (2 ^ d <= 2 ^ (dk + db - 2)) by (apply Z.pow_le_mono_r; lia). lia.
  - destruct (Z.le_gt_cases d (dk + db)) as [H'|H']; [lia|].
    assert (2 ^ (dk + db) <= 2 ^ (d - 1)) by (apply Z.pow_le_mono_r; lia). lia.
Qed.

Lemma round_aux_mantissa s m e :
  Zpos (digits2_pos m) = 53 -> - 1074 <= e <= 971 ->
  binary_round_aux F64.prec F64.emax s (Zpos m) e loc_Exact = S754_finite s m e.
Proof.
  intros Hd He.
  unfold binary_round_aux, shr_fexp, fexp, emin, F64.prec, F64.emax.
  cbn [Zdigits2 shr_record_of_loc]. rewrite Hd.
  change IntDef.Z.max with Z.max.
  replace (Z.max (53 + e - 53) (3 - 1024 - 53) - e) with 0 by lia.
  cbn [shr shr_m loc_of_shr_record round_nearest_even Zdigits2].
  change IntDef.Z.max with Z.max. rewrite Hd.
  replace (Z.max (53 + e - 53) (3 - 1024 - 53) - e) with 0 by lia.
  cbn [shr shr_m].
  replace (e <=? 1024 - 53) with true by (symmetry; apply Z.leb_le; lia).
  reflexivity.
Qed.

Lemma round_aux_mantissa_double s m e :
  Zpos (digits2_pos m) = 53 -> - 1074 <= e <= 971 ->
  binary_round_aux F64.prec F64.emax s (Zpos m~0) (e - 1) loc_Exact
    = S754_finite s m e.
Proof.
  intros Hd He.
  unfold binary_round_aux, shr_fexp, fexp, emin, F64.prec, F64.emax.
  cbn [Zdigits2 shr_record_of_loc digits2_pos]. rewrite Pos2Z.inj_succ, Hd.
  change IntDef.Z.max with Z.max.
  replace (Z.max (Z.succ 53 + (e - 1) - 53) (3 - 1024 - 53) - (e - 1)) with 1 by lia.
  cbn [shr iter_pos shr_1 shr_m shr_r shr_s orb
       loc_of_shr_record round_nearest_even Zdigits2].
  change IntDef.Z.max with Z.max. rewrite Hd.
  replace (Z.max (53 + (e - 1 + 1) - 53) (3 - 1024 - 53) - (e - 1 + 1)) with 0 by lia.
  cbn [shr shr_m].
  replace (e - 1 + 1 <=? 1024 - 53) with true by (symmetry; apply Z.leb_le; lia).
  f_equal. lia.
Qed.

Lemma div_core_exact k b :
  Zpos (k * b) < 2 ^ 53 ->
  SFdiv_core_binary F64.prec F64.emax
      (Zpos (mantissa (k * b))) (exponent (k * b))
      (Zpos (mantissa b)) (exponent b)
    = (Zpos (mantissa k), exponent k, loc_Exact) \/
  SFdiv_core_binary F64.prec F64.emax
      (Zpos (mantissa (k * b))) (exponent (k * b))
      (Zpos (mantissa b)) (exponent b)
    = (Zpos (mantissa k)~0, exponent k - 1, loc_Exact).
Proof.
  intros Ha.
  assert (Hk : Zpos k < 2 ^ 53) by (rewrite Pos2Z.inj_mul in Ha; nia).
  assert (Hb : Zpos b < 2 ^ 53) by (rewrite Pos2Z.inj_mul in Ha; nia).
  pose proof (digits2_pos_53 _ Ha) as Hda.
  pose proof (digits2_pos_53 _ Hk) as Hdk.
  pose proof (digits2_pos_53 _ Hb) as Hdb.
  pose proof (mantissa_value _ Hda) as Hma.
  pose proof (mantissa_value _ Hdk) as Hmk.
  pose proof (mantissa_value _ Hdb) as Hmb.
  pose proof (digits2_pos_mantissa _ Hda) as Hdma.
  pose proof (digits2_pos_mantissa _ Hdb) as Hdmb.
  unfold SFdiv_core_binary, fexp, emin, F64.prec, F64.emax, exponent.
  cbn [Zdigits2]. rewrite Hdma, Hdmb.
  change IntDef.Z.min with Z.min. change IntDef.Z.max with Z.max.
  change IntDef.Z.div_eucl with Z.div_eucl. change IntDef.Z.shiftl with Z.shiftl.
  set (da := Zpos (digits2_pos (k * b))) in *.
  set (dk := Zpos (digits2_pos k)) in *.
  set (db := Zpos (digits2_pos b)) in *.
  assert (H0k : 0 < dk) by (subst dk; lia).
  assert (H0b : 0 < db) by (subst db; lia).
  assert (H0a : 0 < da) by (subst da; lia).
  replace (Z.min 0 (da - 53)) with (da - 53) by lia.
  replace (Z.min 0 (db - 53)) with (db - 53) by lia.
  replace (Z.min 0 (dk - 53)) with (dk - 53) by lia.
  replace (Z.min (Z.max (53 + (da - 53) - (53 + (db - 53)) - 53) (3 - 1024 - 53))
                 (da - 53 - (db - 53)))
    with (da - db - 53) by lia.
  replace (da - 53 - (db - 53) - (da - db - 53)) with 53 by lia.
  rewrite Z.shiftl_mul_pow2 by lia.
  assert (Hq : Zpos (mantissa (k * b)) * 2 ^ 53
               = (Zpos k * 2 ^ (53 - da + db)) * Zpos (mantissa b)).
  { rewrite Hma, Hmb, Pos2Z.inj_mul.
    replace (53 - da + db) with ((53 - da) + db) by lia.
    rewrite Z.pow_add_r by lia.
    replace (2 ^ 53) with (2 ^ db * 2 ^ (53 - db))
      by (rewrite <- Z.pow_add_r by lia; f_equal; lia).
    ring. }
  rewrite Hq, div_eucl_exact by lia.
  assert (Hloc : new_location (Zpos (mantissa b)) 0 = loc_Exact).
  { unfold new_location. destruct (Z.even _); reflexivity. }
  rewrite Hloc.
  destruct (digits2_pos_mul k b) as [E|E]; fold da dk db in E.
  - right. replace (53 - da + db) with ((53 - dk) + 1) by lia.
    rewrite Z.pow_add_r, Z.mul_assoc, <- Hmk by lia.
    change (2 ^ 1) with 2. f_equal. f_equal; lia.
  - left. replace (53 - da + db) with (53 - dk) by lia.
    rewrite <- Hmk. f_equal. f_equal. lia.
Qed.

(** The float64 quotient of two positive integers below [2^53] whose
    quotient is whole is that whole number. *)
Lemma div_of_int_exact k b :
  0 <= k -> 0 < b < 2 ^ 53 -> k * b < 2 ^ 53 ->
  F64.div (F64.of_int (k * b)) (F64.of_int b) = F64.of_int k.
Proof.
  intros Hk [Hb Hb53] Ha.
  rewrite (of_int_nonzero b) by lia.
  replace (b <? 0) with false by (symmetry; apply Z.ltb_ge; lia).
  destruct (Z.eq_dec k 0) as [->|Hk0]; [reflexivity|].
  assert (Hk53 : k < 2 ^ 53) by nia.
  rewrite (of_int_nonzero (k * b)), (of_int_nonzero k) by nia.
  replace (k * b <? 0) with false by (symmetry; apply Z.ltb_ge; nia).
  replace (k <? 0) with false by (symmetry; apply Z.ltb_ge; lia).
  destruct k as [|k|k]; try lia. destruct b as [|b|b]; try lia.
  change (Z.to_pos (Z.abs (Zpos k * Zpos b))) with (k * b)%positive.
  cbn [Z.abs Z.to_pos].
  unfold F64.div, SFdiv.
  destruct (div_core_exact k b Ha) as [E|E]; rewrite E; cbn [xorb].
  - apply round_aux_mantissa.
    + apply digits2_pos_mantissa, digits2_pos_53. lia.
    + pose proof (digits2_pos_53 k ltac:(lia)). unfold exponent. lia.
  - apply round_aux_mantissa_double.
    + apply digits2_pos_mantissa, digits2_pos_53. lia.
    + pose proof (digits2_pos_53 k ltac:(lia)). unfold exponent. lia.
Qed.

(** ** The activated stake in SOL *)

Lemma stake_whole vote :
  wholeSol vote = true ->
  F64.div (F64.of_int (ActivatedStake vote)) pow10_9
    = F64.of_int (ActivatedStake vote / lamportsPerSol).
Proof.
  unfold wholeSol, lamportsPerSol. intros H.
  apply andb_prop in H as [H Hm]. apply andb_prop in H as [H0 H53].
  apply Z.leb_le in H0. apply Z.ltb_lt in H53. apply Z.eqb_eq in Hm.
  pose proof (Z.div_mod (ActivatedStake vote) 1000000000 ltac:(lia)) as Hd.
  rewrite Hm, Z.add_0_r in Hd.
  assert (Hq : 0 <= ActivatedStake vote / 1000000000) by (apply Z.div_pos; lia).
  rewrite Hd at 1. rewrite Z.mul_comm.
  change pow10_9 with (F64.of_int 1000000000).
  apply div_of_int_exact; lia.
Qed.

Section Stake.

Variable env : Env.
Variable config : Config.

Lemma stakes_emitTracked net vote c p :
  wholeSol vote = true ->
  yields stakeOf (emitTracked env config net vote c p)
    [F64.of_int (ActivatedStake vote / lamportsPerSol)].
Proof.
  intros Hw. unfold emitTracked. do 3 quiet_emit.
  eapply yields_bind; [exact (yields_emit _ _)|intros _|].
  2:{ cbn [stakeOf]. rewrite (stake_whole vote Hw). reflexivity. }
  apply yields_quiet_bind.
  { destruct (negb (EpochVoteAccount vote) && (ActivatedStake vote <=? 0));
      (apply yields_quiet_bind;
         [apply yields_AlertValidatorStatus; intros; reflexivity|intros _]);
      exact (yields_emit _ _). }
  intros _. do 4 quiet_emit. exact (yields_emit _ _).
Qed.

Lemma stakes_currentLoop net l : forall acc,
  forallb wholeSol (filter (tracked config) l) = true ->
  yields stakeOf (currentLoop env config net l acc)
    (map (fun vote => F64.of_int (ActivatedStake vote / lamportsPerSol))
         (filter (tracked config) l)).
Proof.
  induction l as [|vote l IH]; intros acc Hall; [apply yields_ret|].
  cbn [currentLoop filter] in *.
  apply yields_quiet_bind;
    [apply yields_calcualteEpochVoteCredits; intros; reflexivity|intros cp].
  destruct (tracked config vote).
  - cbn [forallb] in Hall. apply andb_prop in Hall as [Hv Hall].
    eapply yields_bind;
      [apply stakes_emitTracked; exact Hv|intros _; apply IH; exact Hall|reflexivity].
  - apply yields_quiet_bind; [apply yields_ret|intros _; apply IH; exact Hall].
Qed.

Lemma stakes_emitDelinquent vote : yields stakeOf (emitDelinquent env vote) [].
Proof.
  unfold emitDelinquent. do 2 quiet_emit.
  do 2 (apply yields_quiet_bind;
          [apply yields_alerter_Send; intros; reflexivity|intros ?];
        apply yields_quiet_bind;
          [apply yields_when_log; intros; reflexivity|intros _]).
  apply yields_quiet_bind;
    [apply yields_alerter_Send; intros; reflexivity|intros ?].
  apply yields_when_log; intros; reflexivity.
Qed.

Lemma stakes_mustEmitMetrics response :
  forallb wholeSol (filter (tracked config) (Current response)) = true ->
  yields stakeOf (mustEmitMetrics env config response)
    (map (fun vote => F64.of_int (ActivatedStake vote / lamportsPerSol))
         (filter (tracked config) (Current response))).
Proof.
  intros Hall. unfold mustEmitMetrics. do 2 quiet_emit.
  apply yields_quiet_bind; [apply quiet_lastVoteLoop; reflexivity|intros _].
  apply yields_quiet_bind;
    [apply yields_getCachedEpochInfo; intros; reflexivity|intros r].
  apply yields_quiet_bind; [apply yields_when_log; intros; reflexivity|intros _].
  eapply yields_bind;
    [apply stakes_currentLoop; exact Hall| |symmetry; apply app_nil_r].
  intros acc. do 2 quiet_emit.
  apply yields_forM_quiet. intros vote.
  destruct (tracked config vote); [apply stakes_emitDelinquent|apply yields_ret].
Qed.

End Stake.

(** The activated stake is reported in SOL without rounding error when
    it is a whole number of SOL: in a pass that returns, each record of
    the tracked validator in the current set whose stake is a multiple of
    10^9 lamports below 2^53 gets the stake metric with exactly that
    number of SOL as its value. *)
Theorem stake_in_whole_sol_is_exact :
  forall env config response w w',
    forallb wholeSol (filter (tracked config) (Current response)) = true ->
    mustEmitMetrics env config response w = Done tt w' ->
    stakes (trace w')
      = (stakes (trace w)
         ++ map (fun vote => F64.of_int (ActivatedStake vote / lamportsPerSol))
                (filter (tracked config) (Current response)))%list.
Proof.
  intros env config response w w' Hall Hrun.
  exact (stakes_mustEmitMetrics env config response Hall _ _ _ Hrun).
Qed.

Lemma stake_in_whole_sol_is_exact_witness :
  exists w',
    mustEmitMetrics (steadyEnv twoVoteAccounts "true" None) sampleConfig
      twoVoteAccounts warmWorld = Done tt w' /\
    stakes (trace w') = [F64.of_int 5; F64.of_int 0].
Proof.
  eexists. split; [vm_compute; reflexivity|].
  refine (stake_in_whole_sol_is_exact
            (steadyEnv twoVoteAccounts "true" None) sampleConfig twoVoteAccounts
            warmWorld _ _ _).
  - vm_compute. reflexivity.
  - vm_compute. reflexivity.
Defined.
